(** * issue_worker: a shallow embedding of [scripts/issue_worker.py]

    The script reads an issue body, resolves a list of image URLs (from a
    supplied JSON array or by scanning the text with two regular
    expressions), fetches every image, hands it to an external program and
    writes a manifest with one entry per URL.

    Text is modelled by [string], read as a sequence of code points below
    256.  Python's [int] is [Z].  The interpreter's libraries and the
    operating system are an interface ([Lib], [Env]); everything proved in
    general holds for every implementation of that interface. *)

From Stdlib Require Import ZArith Ascii String DecimalString.
From Stdlib Require DecimalZ DecimalPos.
From stdpp Require Import base decidable list strings gmap.

Local Open Scope Z_scope.

(** ** Characters and strings *)

Module Str.

Definition code (c : ascii) : N := N_of_ascii c.

(** [str.isspace] on one character, for code points below 256. *)
Definition isspace (c : ascii) : bool :=
  let n := code c in
  (((9 <=? n) && (n <=? 13)) || ((28 <=? n) && (n <=? 32))
   || (n =? 133) || (n =? 160))%N.

Definition is_upper_ascii (c : ascii) : bool :=
  let n := code c in ((65 <=? n) && (n <=? 90))%N.

(** Upper-case letters of Latin-1 other than the ASCII ones. *)
Definition is_upper_latin1 (c : ascii) : bool :=
  let n := code c in ((192 <=? n) && (n <=? 222) && negb (n =? 215))%N.

(** [str.lower] on one character. *)
Definition lower_char (c : ascii) : ascii :=
  if is_upper_ascii c || is_upper_latin1 c
  then ascii_of_N (code c + 32) else c.

(** [str.lower]. *)
Fixpoint lower (s : string) : string :=
  match s with
  | EmptyString => EmptyString
  | String c s' => String (lower_char c) (lower s')
  end.

(** [str.lstrip] with no argument. *)
Fixpoint lstrip (s : string) : string :=
  match s with
  | EmptyString => EmptyString
  | String c s' => if isspace c then lstrip s' else s
  end.

(** [str.rstrip] with no argument. *)
Fixpoint rstrip (s : string) : string :=
  match s with
  | EmptyString => EmptyString
  | String c s' =>
      match rstrip s' with
      | EmptyString => if isspace c then EmptyString else String c EmptyString
      | r => String c r
      end
  end.

(** [str.strip] with no argument. *)
Definition strip (s : string) : string := rstrip (lstrip s).

(** [s.split(sep)[0]] for a one-character separator. *)
Fixpoint split_head (sep : ascii) (s : string) : string :=
  match s with
  | EmptyString => EmptyString
  | String c s' => if Ascii.eqb c sep then EmptyString
                   else String c (split_head sep s')
  end.

(** [a or b] on strings: the empty string is falsy. *)
Definition or_else (a b : string) : string :=
  match a with EmptyString => b | _ => a end.

(** [str(n)] for an [int]. *)
Definition of_Z (n : Z) : string := NilZero.string_of_int (Z.to_int n).

End Str.

(** ** The fragment of [re] used by the script

    Both patterns are a sequence of single-character items, some of them
    repeated, around one capturing group.  The matcher is the usual
    backtracking one: repetitions are greedy and give characters back when
    the rest of the pattern fails. *)

Module Re.

(** A one-character test. *)
Inductive cset : Type :=
| Lit (c : ascii)            (* a literal, compared under IGNORECASE *)
| NoneOf (cs : list ascii)   (* [^...] *)
| NoneOfOrSpace (cs : list ascii)   (* [^...\s] *)
| OneOf (cs : list ascii).   (* [...] *)

Definition mem (c : ascii) (cs : list ascii) : bool :=
  existsb (Ascii.eqb c) cs.

(** Under [re.IGNORECASE] a literal letter matches the characters with
    the same lower case.  Among code points below 256 these are the two
    cases of the letter; beyond them [re] also takes U+017F for [s],
    U+0130 and U+0131 for [i] and U+212A for [k], which a text of this
    model cannot hold. *)
Definition accepts (k : cset) (c : ascii) : bool :=
  match k with
  | Lit l => Ascii.eqb (Str.lower_char c) (Str.lower_char l)
  | NoneOf cs => negb (mem c cs)
  | NoneOfOrSpace cs => negb (mem c cs) && negb (Str.isspace c)
  | OneOf cs => mem c cs
  end.

Inductive item : Type :=
| One (k : cset)     (* k  *)
| Opt (k : cset)     (* k? *)
| Star (k : cset)    (* k* *)
| Plus (k : cset).   (* k+ *)

(** [run p s k]: match the items [p] at the start of [s]; on success hand
    the consumed text and the remaining text to [k].  When [k] fails the
    last greedy choice is shortened and [k] is tried again. *)
Fixpoint run {R : Type} (p : list item) (s : string)
         (k : string -> string -> option R) {struct p} : option R :=
  match p with
  | [] => k EmptyString s
  | One c :: p' =>
      match s with
      | String x s' =>
          if accepts c x then run p' s' (fun t r => k (String x t) r)
          else None
      | EmptyString => None
      end
  | Opt c :: p' =>
      match s with
      | String x s' =>
          if accepts c x then
            match run p' s' (fun t r => k (String x t) r) with
            | Some r => Some r
            | None => run p' s k
            end
          else run p' s k
      | EmptyString => run p' s k
      end
  | Star c :: p' =>
      (fix star (s : string) (k : string -> string -> option R)
           {struct s} : option R :=
         match s with
         | String x s' =>
             if accepts c x then
               match star s' (fun t r => k (String x t) r) with
               | Some r => Some r
               | None => run p' s k
               end
             else run p' s k
         | EmptyString => run p' s k
         end) s k
  | Plus c :: p' =>
      match s with
      | String x s' =>
          if accepts c x then
            (fix star (s : string) (k : string -> string -> option R)
                 {struct s} : option R :=
               match s with
               | String y s' =>
                   if accepts c y then
                     match star s' (fun t r => k (String y t) r) with
                     | Some r => Some r
                     | None => run p' s k
                     end
                   else run p' s k
               | EmptyString => run p' s k
               end) s' (fun t r => k (String x t) r)
          else None
      | EmptyString => None
      end
  end.

(** A pattern with one capturing group. *)
Record pattern : Type := Pattern {
  before : list item;
  group : list item;
  after : list item
}.

(** [pattern.match] at the start of [s]: the text of group 1 and the text
    that follows the match. *)
Definition match_at (p : pattern) (s : string) : option (string * string) :=
  run (before p) s (fun _ r1 =>
    run (group p) r1 (fun g r2 =>
      run (after p) r2 (fun _ r3 => Some (g, r3)))).

(** [re.findall] for a pattern with one group whose matches are never
    empty: scan left to right; after a match the scan resumes where the
    match ended.  [skip] counts the characters of the last match that are
    still to be passed over. *)
Fixpoint findall_from (p : pattern) (s : string) (skip : nat) : list string :=
  match skip with
  | S n =>
      match s with
      | String _ s' => findall_from p s' n
      | EmptyString => []
      end
  | O =>
      match match_at p s with
      | Some (g, rest) =>
          g :: match s with
               | String _ s' =>
                   findall_from p s' (String.length s' - String.length rest)%nat
               | EmptyString => []
               end
      | None =>
          match s with
          | String _ s' => findall_from p s' O
          | EmptyString => []
          end
      end
  end.

Definition findall (p : pattern) (s : string) : list string :=
  findall_from p s O.

Definition lits (s : string) : list item :=
  map (fun c => One (Lit c)) (list_ascii_of_string s).

End Re.

(** ** [extract_image_urls] *)

Definition dquote : ascii := "034"%char.
Definition squote : ascii := "039"%char.
Definition quotes : list ascii := [dquote; squote].

(** [https?://] *)
Definition scheme_items : list Re.item :=
  Re.lits "http" ++ [Re.Opt (Re.Lit "s")] ++ Re.lits "://".

(** The Markdown image pattern of line 16:
    bang, bracketed alt text, then the URL in parentheses. *)
Definition markdown_pattern : Re.pattern :=
  {| Re.before := Re.lits "![" ++ [Re.Star (Re.NoneOf ["]"%char])] ++ Re.lits "](";
     Re.group := scheme_items ++ [Re.Plus (Re.NoneOfOrSpace [")"%char])];
     Re.after := Re.lits ")" |}.

(** The HTML image pattern of line 17: an img tag, at least one character
    other than the closing angle, then src= and the URL between quotes
    (single or double, not necessarily the same at both ends). *)
Definition html_pattern : Re.pattern :=
  {| Re.before := Re.lits "<img" ++ [Re.Plus (Re.NoneOf [">"%char])]
                  ++ Re.lits "src=" ++ [Re.One (Re.OneOf quotes)];
     Re.group := scheme_items ++ [Re.Plus (Re.NoneOf quotes)];
     Re.after := [Re.One (Re.OneOf quotes)] |}.

(** The loop of lines 18-23: [seen] is the set, [urls] the list built so
    far; [pending] is what is left of [markdown_urls + html_urls]. *)
Fixpoint dedup_loop (pending : list string) (seen : gset string)
         (urls : list string) : list string :=
  match pending with
  | [] => urls
  | url :: rest =>
      if decide (url ∈ seen) then dedup_loop rest seen urls
      else dedup_loop rest ({[url]} ∪ seen) (urls ++ [url])
  end.

Definition extract_image_urls (issue_body : string) : list string :=
  let markdown_urls := Re.findall markdown_pattern issue_body in
  let html_urls := Re.findall html_pattern issue_body in
  dedup_loop (markdown_urls ++ html_urls) ∅ [].

(** ** Exceptions and results *)

(** An instance of [Exception], the class the handler of line 95 catches:
    its class name and the text [str(exc)] gives. *)
Record exn : Type := Exception { exc_class : string; exc_str : string }.

Definition RuntimeError (msg : string) : exn := Exception "RuntimeError" msg.

(** What a timed-out socket raises, and what [urlopen] raises when it
    wraps that error while connecting. *)
Definition socket_timeout : exn := Exception "TimeoutError" "timed out".
Definition URLError (reason : exn) : exn :=
  Exception "URLError" ("<urlopen error " +:+ exc_str reason +:+ ">").

Inductive result (A : Type) : Type :=
| Return (a : A)
| Raise (e : exn).
Arguments Return {A} a.
Arguments Raise {A} e.

(** ** The manifest *)

Inductive status : Type := Skipped | Ok | Failed.

#[global] Instance status_eq_dec : EqDecision status.
Proof. solve_decision. Defined.

(** The [item] dict: [index], [url] and [status] are set when it is
    created, the other keys are absent until assigned. *)
Record Item : Type := mkItem {
  index : Z;
  url : string;
  item_status : status;
  input : option string;
  output : option string;
  log : option string
}.

Record Manifest : Type := mkManifest {
  issue_number : string;
  total_images : Z;
  processed_images : Z;
  items : list Item
}.

Definition set_input (v : string) (it : Item) : Item :=
  mkItem (index it) (url it) (item_status it) (Some v) (output it) (log it).
Definition set_output (v : string) (it : Item) : Item :=
  mkItem (index it) (url it) (item_status it) (input it) (Some v) (log it).
Definition set_status (v : status) (it : Item) : Item :=
  mkItem (index it) (url it) v (input it) (output it) (log it).
Definition set_log (v : string) (it : Item) : Item :=
  mkItem (index it) (url it) (item_status it) (input it) (output it) (Some v).

(** [manifest["processed_images"] += 1] *)
Definition incr_processed (m : Manifest) : Manifest :=
  mkManifest (issue_number m) (total_images m) (processed_images m + 1) (items m).

(** [manifest["items"].append(item)] *)
Definition append_item (it : Item) (m : Manifest) : Manifest :=
  mkManifest (issue_number m) (total_images m) (processed_images m) (items m ++ [it]).

(** ** Library functions

    The pure functions of the standard library that the script calls.  A
    path is modelled by the text [str] gives for it. *)
Record Lib : Type := mkLib {
  (** [urlparse(url).path]; [urlparse] raises [ValueError] on some URLs. *)
  urlparse_path : string -> result string;
  (** [Path(p).suffix] *)
  path_suffix : string -> string;
  (** [mimetypes.guess_extension] *)
  guess_extension : string -> option string;
  (** [Path(s)] *)
  mk_path : string -> string;
  (** [p / name] *)
  joinpath : string -> string -> string;
  (** [json.loads], at its documented use: an array of strings. *)
  json_loads : string -> result (list string)
}.

Definition IMAGE_EXTS : gset string :=
  {[ ".png"; ".jpg"; ".jpeg"; ".webp"; ".bmp" ]}.

Section InferExtension.
Variable lib : Lib.

Definition infer_extension (url : string) (content_type : option string)
  : result string :=
  match urlparse_path lib url with
  | Raise e => Raise e
  | Return parsed_path =>
      let suffix := Str.lower (path_suffix lib parsed_path) in
      if decide (suffix ∈ IMAGE_EXTS) then Return suffix
      else
        let fallback := Return ".png" in
        match content_type with
        | None | Some EmptyString => fallback
        | Some ct =>
            match guess_extension lib (Str.strip (Str.split_head ";" ct)) with
            | None | Some EmptyString => fallback
            | Some guessed =>
                if decide (Str.lower guessed ∈ IMAGE_EXTS)
                then Return (Str.lower guessed) else fallback
            end
        end
  end.
End InferExtension.

(** ** The outside world *)

(** [subprocess.CompletedProcess], with [capture_output=True, text=True]. *)
Record CompletedProcess : Type := mkCompleted {
  returncode : Z;
  stdout : string;
  stderr : string
}.

(** The operating system and the network, over a state [W] of the world and
    a type [Resp] of open HTTP responses.  Every call maps the world to a
    new world and either returns or raises. *)
Record Env (W Resp : Type) : Type := mkEnv {
  (** [Path(p).read_text(encoding="utf-8")] *)
  read_text : string -> W -> result string * W;
  (** [p.mkdir(parents=True, exist_ok=True)] *)
  mkdir : string -> W -> result unit * W;
  (** [Request(url, headers=...)]: raises [ValueError] for a URL without
      a scheme; otherwise there is a request for that URL. *)
  request : string -> result unit;
  (** [urlopen(request, timeout=60)], for the request of the URL *)
  urlopen : string -> W -> result Resp * W;
  (** [response.read()] *)
  response_read : Resp -> W -> result string * W;
  (** leaving the [with] block *)
  response_close : Resp -> W -> W;
  (** [p.write_bytes(data)] *)
  write_bytes : string -> string -> W -> result unit * W;
  (** [subprocess.run(command, capture_output=True, text=True)] *)
  subprocess_run : list string -> W -> result CompletedProcess * W;
  (** [p.exists()] *)
  path_exists : string -> W -> bool;
  (** [p.write_text(json.dumps(manifest, ...), encoding="utf-8")] *)
  write_text : string -> Manifest -> W -> result unit * W;
  (** [sys.executable] *)
  sys_executable : string
}.
Arguments read_text {W Resp}.
Arguments mkdir {W Resp}.
Arguments request {W Resp}.
Arguments urlopen {W Resp}.
Arguments response_read {W Resp}.
Arguments response_close {W Resp}.
Arguments write_bytes {W Resp}.
Arguments subprocess_run {W Resp}.
Arguments path_exists {W Resp}.
Arguments write_text {W Resp}.
Arguments sys_executable {W Resp}.

(** The calls a run makes, in the order it makes them. *)
Inductive event : Type :=
| EvReadText (p : string)
| EvJsonLoads (doc : string)
| EvExtract (text : string)
| EvMkdir (p : string)
| EvUrlopen (u : string)
| EvWriteBytes (p : string)
| EvSubprocess (command : list string)
| EvWriteText (p : string) (m : Manifest).

(** ** A state and exception monad *)

Definition M (S A : Type) : Type := S -> result A * S.

Definition ret {S A} (a : A) : M S A := fun s => (Return a, s).
Definition raise {S A} (e : exn) : M S A := fun s => (Raise e, s).
Definition bind {S A B} (m : M S A) (f : A -> M S B) : M S B :=
  fun s => match m s with
           | (Return a, s') => f a s'
           | (Raise e, s') => (Raise e, s')
           end.
Definition modify {S} (f : S -> S) : M S unit := fun s => (Return tt, f s).

(** A value or an exception computed without the state. *)
Definition of_result {S A} (r : result A) : M S A := fun s => (r, s).

(** [try: body / except Exception as exc: handler exc]: the state the body
    reached when it raised is the state the handler starts from. *)
Definition try_except {S A} (body : M S A) (handler : exn -> M S A) : M S A :=
  fun s => match body s with
           | (Return a, s') => (Return a, s')
           | (Raise e, s') => handler e s'
           end.

(** [with ... as r: body]: [close] runs on the way out, whether the body
    returned or raised. *)
Definition finally {S A} (body : M S A) (close : S -> S) : M S A :=
  fun s => let (r, s') := body s in (r, close s').

Declare Scope monad_scope.
Delimit Scope monad_scope with monad.
Notation "x <- m ;; f" := (bind m (fun x => f))
  (at level 100, m at next level, right associativity) : monad_scope.
Notation "m ;; f" := (bind m (fun _ => f))
  (at level 100, right associativity) : monad_scope.

(** ** The script *)

Record Args : Type := mkArgs {
  issue_body_file : string;
  arg_issue_number : string;
  output_dir : string;
  urls_json : string
}.

Section Worker.
Variable lib : Lib.
Variables W Resp : Type.
Variable env : Env W Resp.

(** What the functions of the script act on: the world and the calls
    made so far. *)
Record Sys : Type := mkSys { world : W; trace : list event }.

Definition emit (ev : event) : M Sys unit :=
  modify (fun s => mkSys (world s) (trace s ++ [ev])).

(** A call to the environment. *)
Definition sys_call {A} (op : W -> result A * W) : M Sys A :=
  fun s => let (r, w) := op (world s) in (r, mkSys w (trace s)).

Open Scope monad_scope.

Definition download_image (url save_path : string) : M Sys unit :=
  of_result (request env url) ;;
  emit (EvUrlopen url) ;;
  response <- sys_call (urlopen env url) ;;
  finally
    (data <- sys_call (response_read env response) ;;
     match data with
     | EmptyString => raise (RuntimeError ("Empty response: " +:+ url))
     | _ => emit (EvWriteBytes save_path) ;;
            sys_call (write_bytes env save_path data)
     end)
    (fun s => mkSys (response_close env response (world s)) (trace s)).

Definition run_main (input_path output_path : string) : M Sys (bool * string) :=
  let command := [sys_executable env; "main.py"; input_path; output_path] in
  emit (EvSubprocess command) ;;
  result <- sys_call (subprocess_run env command) ;;
  fun s =>
    let ok := (returncode result =? 0)
              && path_exists env output_path (world s) in
    let message := Str.or_else (stdout result) "" +:+ Str.or_else (stderr result) "" in
    (Return (ok, Str.strip message), s).

(** Line 65. *)
Definition resolve_urls (args : Args) (issue_body : string) : M Sys (list string) :=
  match urls_json args with
  | EmptyString =>
      emit (EvExtract issue_body) ;; ret (extract_image_urls issue_body)
  | doc =>
      emit (EvJsonLoads doc) ;; fun s => (json_loads lib doc, s)
  end.

(** The local variables a loop iteration assigns to. *)
Record Frame : Type := mkFrame {
  f_item : Item;
  f_manifest : Manifest;
  f_sys : Sys
}.

Definition on_sys {A} (m : M Sys A) : M Frame A :=
  fun f => let (r, s) := m (f_sys f) in (r, mkFrame (f_item f) (f_manifest f) s).
Definition on_item (g : Item -> Item) : M Frame unit :=
  modify (fun f => mkFrame (g (f_item f)) (f_manifest f) (f_sys f)).
Definition on_manifest (g : Manifest -> Manifest) : M Frame unit :=
  modify (fun f => mkFrame (f_item f) (g (f_manifest f)) (f_sys f)).

(** Lines 83-94, the body of the [try]. *)
Definition try_body (inputs_dir results_dir : string) (index : Z) (url : string)
  : M Frame unit :=
  ext <- of_result (infer_extension lib url None) ;;
  let input_path := joinpath lib inputs_dir ("input_" +:+ Str.of_Z index +:+ ext) in
  on_sys (download_image url input_path) ;;
  let output_path := joinpath lib results_dir ("output_" +:+ Str.of_Z index +:+ ".png") in
  outcome <- on_sys (run_main input_path output_path) ;;
  let (ok, message) := outcome in
  on_item (set_input input_path) ;;
  on_item (set_output output_path) ;;
  on_item (set_status (if ok then Ok else Failed)) ;;
  on_item (set_log message) ;;
  if ok then on_manifest incr_processed else ret tt.

(** Lines 95-97, the handler. *)
Definition except_handler (exc : exn) : M Frame unit :=
  on_item (set_status Failed) ;;
  on_item (set_log (exc_str exc)).

(** Lines 81-98, one iteration of the loop: the item is created, the
    [try] statement runs on the local variables, the item is appended. *)
Definition loop_body (inputs_dir results_dir : string) (index : Z) (url : string)
           (manifest : Manifest) : M Sys Manifest :=
  fun s =>
    let item := mkItem index url Skipped None None None in
    let (r, f) := try_except (try_body inputs_dir results_dir index url)
                    except_handler (mkFrame item manifest s) in
    match r with
    | Raise e => (Raise e, f_sys f)
    | Return _ => (Return (append_item (f_item f) (f_manifest f)), f_sys f)
    end.

(** [for index, url in enumerate(urls, start=index)]. *)
Fixpoint for_each (inputs_dir results_dir : string) (index : Z) (urls : list string)
         (manifest : Manifest) : M Sys Manifest :=
  match urls with
  | [] => ret manifest
  | url :: rest =>
      manifest' <- loop_body inputs_dir results_dir index url manifest ;;
      for_each inputs_dir results_dir (index + 1) rest manifest'
  end.

Definition main (args : Args) : M Sys Z :=
  emit (EvReadText (mk_path lib (issue_body_file args))) ;;
  issue_body <- sys_call (read_text env (mk_path lib (issue_body_file args))) ;;
  urls <- resolve_urls args issue_body ;;
  let output_root := mk_path lib (output_dir args) in
  let inputs_dir := joinpath lib output_root "inputs" in
  let results_dir := joinpath lib output_root "results" in
  emit (EvMkdir inputs_dir) ;; sys_call (mkdir env inputs_dir) ;;
  emit (EvMkdir results_dir) ;; sys_call (mkdir env results_dir) ;;
  let manifest :=
    mkManifest (arg_issue_number args) (Z.of_nat (length urls)) 0 [] in
  manifest <- for_each inputs_dir results_dir 1 urls manifest ;;
  let manifest_path := joinpath lib output_root "manifest.json" in
  emit (EvWriteText manifest_path manifest) ;;
  sys_call (write_text env manifest_path manifest) ;;
  ret 0.

End Worker.

Arguments mkSys {W} world trace.
Arguments world {W} s.
Arguments trace {W} s.
Arguments mkFrame {W} f_item f_manifest f_sys.
Arguments f_item {W} f.
Arguments f_manifest {W} f.
Arguments f_sys {W} f.
Arguments emit {W} ev s.
Arguments sys_call {W A} op s.
Arguments download_image {W Resp} env url save_path s.
Arguments run_main {W Resp} env input_path output_path s.
Arguments resolve_urls lib {W} args issue_body s.
Arguments try_body lib {W Resp} env inputs_dir results_dir index url f.
Arguments except_handler {W} exc f.
Arguments loop_body lib {W Resp} env inputs_dir results_dir index url manifest s.
Arguments for_each lib {W Resp} env inputs_dir results_dir index urls manifest s.
Arguments main lib {W Resp} env args s.

(** ** A reference implementation of the interface

    A small POSIX-like instance of [Lib] and an in-memory instance of
    [Env], used to run the model on concrete inputs.  The general theorems
    do not depend on it. *)

Module Reference.

Definition chars := list_ascii_of_string.
Definition text := string_of_list_ascii.

Fixpoint take_until (stop : ascii -> bool) (l : list ascii) : list ascii :=
  match l with
  | [] => []
  | c :: l' => if stop c then [] else c :: take_until stop l'
  end.

Fixpoint drop_until (stop : ascii -> bool) (l : list ascii) : list ascii :=
  match l with
  | [] => []
  | c :: l' => if stop c then l else drop_until stop l'
  end.

Definition is_char (a : ascii) (c : ascii) : bool := Ascii.eqb c a.

Definition is_alpha (c : ascii) : bool :=
  let n := Str.code (Str.lower_char c) in ((97 <=? n) && (n <=? 122))%N.
Definition is_digit (c : ascii) : bool :=
  let n := Str.code c in ((48 <=? n) && (n <=? 57))%N.
Definition is_scheme_char (c : ascii) : bool :=
  is_alpha c || is_digit c || Re.mem c (chars "+-.").

(** What [urlsplit] takes off a URL before it reads it: control
    characters and blanks at the start, and every tab, line feed and
    carriage return. *)
Fixpoint lstrip_c0 (l : list ascii) : list ascii :=
  match l with
  | [] => []
  | c :: l' => if (Str.code c <=? 32)%N then lstrip_c0 l' else l
  end.

Definition is_unsafe (c : ascii) : bool :=
  Re.mem c ["009"; "010"; "013"]%char.

Definition cleaned (url : string) : list ascii :=
  List.filter (fun c => negb (is_unsafe c)) (lstrip_c0 (chars url)).

(** The scheme, in lower case, and the text after [scheme:]; no scheme
    and the whole text when the URL does not start with one. *)
Definition split_scheme (l : list ascii) : list ascii * list ascii :=
  let head := take_until (is_char ":") l in
  match head, drop_until (is_char ":") l with
  | c :: _, _ :: rest =>
      if is_alpha c && forallb is_scheme_char head
      then (map Str.lower_char head, rest) else ([], l)
  | _, _ => ([], l)
  end.

(** [urllib.parse.uses_params] *)
Definition uses_params : list string :=
  [""; "ftp"; "hdl"; "prospero"; "http"; "imap"; "https"; "shttp"; "rtsp";
   "rtspu"; "sip"; "sips"; "mms"; "sftp"; "tel"].

(** The segment after the last slash. *)
Fixpoint last_segment (l : list ascii) (acc : list ascii) : list ascii :=
  match l with
  | [] => acc
  | c :: l' => if is_char "/" c then last_segment l' [] else last_segment l' (acc ++ [c])
  end.

(** [url[:i]] for the first semicolon of the last segment, if any. *)
Definition drop_params (l : list ascii) : list ascii :=
  let seg := last_segment l [] in
  let kept := take_until (is_char ";") seg in
  take (length l - (length seg - length kept)) l.

(** [urlparse(url).path].  Of a host in brackets only the pairing of the
    brackets is checked, as Python did up to 3.11.3; later versions also
    raise [ValueError] when what stands between them is not an IPv6 or
    IPvFuture address. *)
Definition url_path (url : string) : result string :=
  let '(scheme, rest) := split_scheme (cleaned url) in
  let stop c := Re.mem c (chars "/?#") in
  let '(netloc, rest) :=
    match rest with
    | "/"%char :: "/"%char :: r => (take_until stop r, drop_until stop r)
    | _ => ([], rest)
    end in
  if xorb (Re.mem "[" netloc) (Re.mem "]" netloc)
  then Raise (Exception "ValueError" "Invalid IPv6 URL")
  else
    let path := take_until (fun c => Re.mem c (chars "?#")) rest in
    Return (text (if existsb (String.eqb (text scheme)) uses_params
                  then drop_params path else path)).

(** The last component of a path: empty components and [.] components
    do not count. *)
Fixpoint path_name (l : list ascii) (cur last : list ascii) : list ascii :=
  let close cur last :=
    match cur with
    | [] => last
    | ["."%char] => last
    | _ => cur
    end in
  match l with
  | [] => close cur last
  | c :: l' =>
      if is_char "/" c
      then path_name l' [] (close cur last)
      else path_name l' (cur ++ [c]) last
  end.

(** [PurePosixPath(p).suffix]: [name[i:]] for the last dot of the name,
    when it is neither first nor last. *)
Definition suffix_of (p : string) : string :=
  let r := rev (path_name (chars p) [] []) in
  let ext := rev (take_until (is_char ".") r) in
  match drop_until (is_char ".") r, ext with
  | _ :: _ :: _, _ :: _ => text ("."%char :: ext)
  | _, _ => EmptyString
  end.

(** [mimetypes.guess_extension] with the built-in table, for the image
    types whose extension the script recognizes and for [image/gif].  The
    extensions of the other types are of no use to the script and are
    left out, as is [image/webp], which only some versions and systems
    know. *)
Definition guess (type : string) : option string :=
  let t := Str.lower type in
  if String.eqb t "image/png" then Some ".png"
  else if String.eqb t "image/jpeg" then Some ".jpg"
  else if String.eqb t "image/bmp" then Some ".bmp"
  else if String.eqb t "image/gif" then Some ".gif"
  else None.

(** [p / name], for a path [p] that is neither [.] nor a root and a name
    that is a single component. *)
Definition join (p name : string) : string := p +:+ "/" +:+ name.

Definition backslash : ascii := "092"%char.

(** [str(JSONDecodeError(msg, doc, pos))]: the message with the line,
    the column and the position. *)
Definition decode_error {A} (msg : string) (doc : list ascii) (pos : nat) : result A :=
  let before := rev (take pos doc) in
  let line := S (length (List.filter (is_char "010") before)) in
  let column := S (length (take_until (is_char "010") before)) in
  Raise (Exception "JSONDecodeError"
           (msg +:+ ": line " +:+ Str.of_Z (Z.of_nat line)
            +:+ " column " +:+ Str.of_Z (Z.of_nat column)
            +:+ " (char " +:+ Str.of_Z (Z.of_nat pos) +:+ ")")).

(** A JSON value that is not a list of strings of code points below 256:
    [json.loads] returns it, [Lib] has no result for it. *)
Definition no_counterpart {A} : result A :=
  Raise (Exception "NotImplementedError" "a JSON value that is not a list of strings").

Definition is_json_blank (c : ascii) : bool :=
  Re.mem c [" "; "009"; "010"; "013"]%char.

(** The text after the blanks at position [pos], and where it starts. *)
Fixpoint skip_blanks (l : list ascii) (pos : nat) : list ascii * nat :=
  match l with
  | c :: l' => if is_json_blank c then skip_blanks l' (S pos) else (l, pos)
  | [] => ([], pos)
  end.

(** The character of a two-character escape. *)
Definition unescape (c : ascii) : option ascii :=
  if is_char dquote c then Some dquote
  else if is_char backslash c then Some backslash
  else if is_char "/" c then Some "/"%char
  else if is_char "b" c then Some "008"%char
  else if is_char "f" c then Some "012"%char
  else if is_char "n" c then Some "010"%char
  else if is_char "r" c then Some "013"%char
  else if is_char "t" c then Some "009"%char
  else None.

Fixpoint starts_with (p l : list ascii) : bool :=
  match p, l with
  | [] , _ => true
  | a :: p', b :: l' => Ascii.eqb a b && starts_with p' l'
  | _ :: _, [] => false
  end.

(** The text starts like a JSON value: a string, an array, an object, a
    number or a constant. *)
Definition starts_value (l : list ascii) : bool :=
  match l with
  | c :: l' =>
      Re.mem c (dquote :: chars "[{") || is_digit c
      || (is_char "-" c && match l' with d :: _ => is_digit d | [] => false end)
      || existsb (fun p => starts_with (chars p) l)
           ["true"; "false"; "null"; "NaN"; "Infinity"; "-Infinity"]
  | [] => false
  end.

(** The number written by hexadecimal digits, if they all are. *)
Definition hex_digit_value (c : ascii) : option N :=
  let n := Str.code c in
  if is_digit c then Some (n - 48)%N
  else if ((97 <=? n) && (n <=? 102))%N then Some (n - 87)%N
  else if ((65 <=? n) && (n <=? 70))%N then Some (n - 55)%N
  else None.

Fixpoint hex_value_from (acc : N) (l : list ascii) : option N :=
  match l with
  | [] => Some acc
  | c :: l' =>
      match hex_digit_value c with
      | Some d => hex_value_from (16 * acc + d)%N l'
      | None => None
      end
  end.

Definition hex_value (l : list ascii) : option N := hex_value_from 0%N l.

(** A string literal, read from just after its opening quote at
    [start]: its value, the text after the closing quote and where that
    starts. *)
Fixpoint scanstring (doc : list ascii) (start : nat) (l : list ascii) (pos : nat)
    (acc : list ascii) : result (string * list ascii * nat) :=
  match l with
  | [] => decode_error "Unterminated string starting at" doc start
  | c :: l' =>
      if is_char dquote c then Return (text (rev acc), l', S pos)
      else if is_char backslash c then
        match l' with
        | [] => decode_error "Unterminated string starting at" doc start
        | e :: l'' =>
            match unescape e with
            | Some x => scanstring doc start l'' (S (S pos)) (x :: acc)
            | None =>
                if is_char "u" e then
                  match l'' with
                  | a :: b :: c :: d :: rest =>
                      match hex_value [a; b; c; d], rest with
                      | Some n, _ :: _ =>
                          if (n <? 256)%N
                          then scanstring doc start rest (6 + pos) (ascii_of_N n :: acc)
                          else no_counterpart
                      | _, _ => decode_error "Invalid \uXXXX escape" doc (S pos)
                      end
                  | _ => decode_error "Invalid \uXXXX escape" doc (S pos)
                  end
                else decode_error "Invalid \escape" doc pos
            end
        end
      else if (Str.code c <? 32)%N
      then decode_error "Invalid control character at" doc pos
      else scanstring doc start l' (S pos) (c :: acc)
  end.

(** The elements of an array, read from just after a comma or the
    opening bracket: the strings, the text after the closing bracket and
    where that starts. *)
Fixpoint scan_elems (fuel : nat) (doc : list ascii) (l : list ascii) (pos : nat)
    : result (list string * list ascii * nat) :=
  match fuel with
  | O => decode_error "Expecting value" doc pos
  | S n =>
      let '(l, pos) := skip_blanks l pos in
      match l with
      | q :: l' =>
          if is_char dquote q then
            match scanstring doc pos l' (S pos) [] with
            | Raise e => Raise e
            | Return (value, rest, pos) =>
                let '(rest, pos) := skip_blanks rest pos in
                match rest with
                | c :: rest' =>
                    if is_char "]" c then Return ([value], rest', S pos)
                    else if is_char "," c then
                      match scan_elems n doc rest' (S pos) with
                      | Raise e => Raise e
                      | Return (values, rest, pos) => Return (value :: values, rest, pos)
                      end
                    else decode_error "Expecting ',' delimiter" doc pos
                | [] => decode_error "Expecting ',' delimiter" doc pos
                end
            end
          else if starts_value l then no_counterpart
          else decode_error "Expecting value" doc pos
      | [] => decode_error "Expecting value" doc pos
      end
  end.

(** [json.loads] on the documents that are an array of strings written
    with two-character escapes at most, and on the texts that are no
    JSON document. *)
Definition loads (document : string) : result (list string) :=
  let doc := chars document in
  let '(l, pos) := skip_blanks doc 0 in
  match l with
  | "["%char :: l' =>
      let '(l1, pos1) := skip_blanks l' (S pos) in
      let close r :=
        match r with
        | Raise e => Raise e
        | Return (values, rest, pos) =>
            match skip_blanks rest pos with
            | ([], _) => Return values
            | (_, pos) => decode_error "Extra data" doc pos
            end
        end in
      match l1 with
      | "]"%char :: rest => close (Return ([], rest, S pos1))
      | _ => close (scan_elems (length l') doc l' (S pos))
      end
  | _ =>
      if starts_value l then no_counterpart
      else decode_error "Expecting value" doc pos
  end.

(** The text of a JSON array of the given strings. *)
Definition json_array (l : list string) : string :=
  let quote s := String dquote s +:+ String dquote EmptyString in
  "[" +:+ String.concat "," (map quote l) +:+ "]".

(** [Path(s)] is [s] itself for a text in the form [str] gives a path:
    no empty component, no [.] component, no slash at the end. *)
Definition lib : Lib :=
  mkLib url_path suffix_of guess (fun s => s) join loads.

(** [urllib.parse.unwrap]: blanks and the wrapping in angle brackets
    and after [URL:] taken off. *)
Definition unwrap (url : string) : string :=
  let u := Str.strip url in
  let u :=
    match chars u with
    | "<"%char :: l =>
        match rev l with
        | ">"%char :: r => Str.strip (text (rev r))
        | _ => u
        end
    | _ => u
    end in
  match chars u with
  | "U"%char :: "R"%char :: "L"%char :: ":"%char :: l => Str.strip (text l)
  | _ => u
  end.

(** [url.rpartition('#')]: the text before the last [#] and the fragment
    after it, if there is one. *)
Definition splittag (url : string) : string * option string :=
  let r := rev (chars url) in
  match drop_until (is_char "#") r with
  | _ :: before => (text (rev before), Some (text (rev (take_until (is_char "#") r))))
  | [] => (url, None)
  end.

(** [Request.full_url] *)
Definition full_url (parts : string * option string) : string :=
  match parts with
  | (u, Some (String c f)) => u +:+ "#" +:+ String c f
  | (u, _) => u
  end.

(** The scheme test of [Request]: the URL starts with at least one
    character other than a slash or a colon, followed by a colon. *)
Definition has_type (url : string) : bool :=
  let stop c := Re.mem c (chars "/:") in
  match take_until stop (chars url), drop_until stop (chars url) with
  | _ :: _, c :: _ => is_char ":" c
  | _, _ => false
  end.

(** [str.isprintable] on one character, for code points below 256. *)
Definition is_printable (c : ascii) : bool :=
  let n := Str.code c in
  (((32 <=? n) && (n <=? 126)) || ((161 <=? n) && negb (n =? 173)))%N.

Definition hex_digit (n : N) : ascii :=
  nth (N.to_nat n) (chars "0123456789abcdef") "0"%char.

(** [repr] of a text. *)
Definition repr (s : string) : string :=
  let l := chars s in
  let quote := if Re.mem squote l && negb (Re.mem dquote l) then dquote else squote in
  let escape c :=
    if Ascii.eqb c quote || Ascii.eqb c backslash then [backslash; c]
    else if is_char "009" c then [backslash; "t"%char]
    else if is_char "010" c then [backslash; "n"%char]
    else if is_char "013" c then [backslash; "r"%char]
    else if is_printable c then [c]
    else [backslash; "x"%char; hex_digit (Str.code c / 16); hex_digit (Str.code c mod 16)] in
  text (quote :: concat (map escape l) ++ [quote]).

(** [Request(url, headers=...)] *)
Definition new_request (url : string) : result unit :=
  let parts := splittag (unwrap url) in
  if has_type parts.1 then Return tt
  else Raise (Exception "ValueError" ("unknown url type: " +:+ repr (full_url parts))).

(** The in-memory world: files by path, the directories made, and the
    document last written with [write_text]. *)
Record World : Type := mkWorld {
  files : gmap string string;
  dirs : list string;
  document : option (string * Manifest)
}.

Definition put_file (p data : string) (w : World) : World :=
  mkWorld (<[p := data]> (files w)) (dirs w) (document w).

(** What the transform program does with the content of its input: its
    exit status and output, and the file it writes, if any. *)
Definition program : Type := string -> CompletedProcess * option string.

Section WithBehaviour.
(** The network: what a GET of a URL gives. *)
Variable web : string -> result string.
Variable prog : program.

Definition read_file (p : string) (w : World) : result string * World :=
  match files w !! p with
  | Some c => (Return c, w)
  | None => (Raise (Exception "FileNotFoundError"
                      ("[Errno 2] No such file or directory: " +:+ p)), w)
  end.

Definition make_dir (p : string) (w : World) : result unit * World :=
  (Return tt, mkWorld (files w) (dirs w ++ [p]) (document w)).

Definition spawn (command : list string) (w : World)
  : result CompletedProcess * World :=
  match command with
  | [_; _; inp; out] =>
      match files w !! inp with
      | Some c =>
          let (cp, o) := prog c in
          (Return cp, match o with Some d => put_file out d w | None => w end)
      | None => (Return (mkCompleted 2 "" "no such file"), w)
      end
  | _ => (Raise (Exception "OSError" "bad command"), w)
  end.

Definition env : Env World string :=
  {| read_text := read_file;
     mkdir := make_dir;
     request := new_request;
     urlopen := fun u w => (web u, w);
     response_read := fun r w => (Return r, w);
     response_close := fun _ w => w;
     write_bytes := fun p d w => (Return tt, put_file p d w);
     subprocess_run := spawn;
     path_exists := fun p w => bool_decide (is_Some (files w !! p));
     write_text := fun p m w => (Return tt, mkWorld (files w) (dirs w) (Some (p, m)));
     sys_executable := "python3" |}.
End WithBehaviour.

(** A transform that copies its input. *)
Definition copy : program := fun c => (mkCompleted 0 "done" "", Some c).
(** A transform that exits with status 0 and writes nothing. *)
Definition noop : program := fun c => (mkCompleted 0 "" "", None).

(** A network where [a.jpg] and [b.png] exist, [slow.png] times out
    while connecting and every other URL is not found. *)
Definition web (u : string) : result string :=
  if String.eqb u "https://example.com/a.jpg" then Return "JPEGDATA"
  else if String.eqb u "https://example.com/b.png" then Return "PNGDATA"
  else if String.eqb u "https://example.com/slow.png" then Raise (URLError socket_timeout)
  else Raise (Exception "HTTPError" "HTTP Error 404: Not Found").

Definition world_with_body (body : string) : World :=
  mkWorld {[ "issue.md" := body ]} [] None.

(** The manifest a run handed to [write_text]; an empty one when it
    wrote none. *)
Definition written (r : result Z * Sys World) : Manifest :=
  match document (world r.2) with
  | Some (_, m) => m
  | None => mkManifest "" 0 0 []
  end.

(** Scenario 1: three references found in the text, the second of which
    times out. *)
Definition args1 : Args := mkArgs "issue.md" "7" "out" "".
Definition body1 : string :=
  "![a](https://example.com/a.jpg) ![s](https://example.com/slow.png) <img src='https://example.com/b.png'>".
Definition world1 : World := world_with_body body1.
Definition env1 : Env World string := env web copy.
Definition run1 := main lib env1 args1 (mkSys world1 []).
Definition manifest1 : Manifest := Eval vm_compute in written run1.

(** Scenario 2: a supplied list with a duplicate, and a transform that
    exits with status 0 without writing its output. *)
Definition urls2 : list string :=
  ["https://example.com/a.jpg"; "https://example.com/a.jpg"].
Definition args2 : Args := mkArgs "issue.md" "8" "out" (json_array urls2).
Definition env2 : Env World string := env web noop.
Definition run2 := main lib env2 args2 (mkSys world1 []).
Definition manifest2 : Manifest := Eval vm_compute in written run2.

(** Scenario 3: a supplied list and no issue-body file. *)
Definition args3 : Args := mkArgs "missing.md" "9" "out" (json_array urls2).
Definition run3 := main lib env1 args3 (mkSys world1 []).

End Reference.

(** ** Notions used to state the properties *)

(** Deduplication as the specification words it: every value is kept at
    its first occurrence and dropped afterwards. *)
Fixpoint first_seen (l : list string) : list string :=
  match l with
  | [] => []
  | x :: l' => x :: filter (λ y, y ≠ x) (first_seen l')
  end.




(** Every character of the text passes the test. *)
Fixpoint all_accepted (k : Re.cset) (t : string) : Prop :=
  match t with
  | EmptyString => True
  | String x t' => Re.accepts k x = true ∧ all_accepted k t'
  end.

(** The texts a sequence of items can consume. *)
Fixpoint matches (p : list Re.item) (t : string) : Prop :=
  match p with
  | [] => t = EmptyString
  | Re.One k :: p' =>
      ∃ x t', t = String x t' ∧ Re.accepts k x = true ∧ matches p' t'
  | Re.Opt k :: p' =>
      matches p' t ∨
      ∃ x t', t = String x t' ∧ Re.accepts k x = true ∧ matches p' t'
  | Re.Star k :: p' =>
      ∃ t1 t2, t = t1 +:+ t2 ∧ all_accepted k t1 ∧ matches p' t2
  | Re.Plus k :: p' =>
      ∃ x t1 t2, t = String x (t1 +:+ t2) ∧ Re.accepts k x = true
                 ∧ all_accepted k t1 ∧ matches p' t2
  end.

(** The number of items with status [ok]. *)
Definition count_ok (its : list Item) : Z :=
  Z.of_nat (length (filter (λ it, item_status it = Ok) its)).

(** [it] is the entry of reference [u] at position [i]: the index and the
    URL are those of the reference and the status is final. *)
Definition entry_for (i : Z) (u : string) (it : Item) : Prop :=
  index it = i ∧ url it = u ∧ (item_status it = Ok ∨ item_status it = Failed).

(** [its] holds one entry per reference of [urls], in order, numbered
    from [i]. *)
Inductive entries : Z → list string → list Item → Prop :=
| entries_nil i : entries i [] []
| entries_cons i u urls it its :
    entry_for i u it → entries (i + 1) urls its →
    entries i (u :: urls) (it :: its).

(** The calls made while an item is processed. *)
Definition item_event (ev : event) : Prop :=
  match ev with
  | EvUrlopen _ | EvWriteBytes _ | EvSubprocess _ => True
  | _ => False
  end.

(** A network timeout, as raised while reading or while connecting. *)
Definition is_timeout (e : exn) : Prop :=
  e = socket_timeout ∨ e = URLError socket_timeout.

(** The extensions the specification lists as recognized. *)
Definition recognized (ext : string) : Prop :=
  ext ∈ [".png"; ".jpg"; ".jpeg"; ".webp"; ".bmp"].

(** The media type of a content-type: what precedes its parameters. *)
Definition media_type (content_type : string) : string :=
  Str.strip (Str.split_head ";" content_type).

(** A content-type is given and maps to the recognized extension [ext]. *)
Definition maps_to (lib : Lib) (content_type : option string) (ext : string) : Prop :=
  ∃ c g, content_type = Some c ∧ c ≠ EmptyString
         ∧ guess_extension lib (media_type c) = Some g
         ∧ ext = Str.lower g ∧ recognized ext.

(** The log of a transform that returned: its captured output. *)
Definition transform_log (cp : CompletedProcess) : string :=
  Str.strip (Str.or_else (stdout cp) "" +:+ Str.or_else (stderr cp) "").

(** What [run] hands to its continuation is a split of the input whose
    first part the items can consume. *)
Definition sound (R : Type) (p : list Re.item) : Prop :=
  ∀ s (k : string → string → option R) r,
    Re.run p s k = Some r →
    ∃ t rest, s = t +:+ rest ∧ matches p t ∧ k t rest = Some r.

(** The entry the handler leaves for an item whose processing raised. *)
Definition failed_item (i : Z) (u : string) (e : exn) : Item :=
  mkItem i u Failed None None (Some (exc_str e)).

(** The entry of an item whose transform returned. *)
Definition transformed_item (i : Z) (u inp out : string) (success : bool)
           (message : string) : Item :=
  mkItem i u (if success then Ok else Failed) (Some inp) (Some out) (Some message).

Section WorkerNotions.
Variable lib : Lib.
Context {W Resp : Type}.
Variable env : Env W Resp.

Definition input_path_of (inputs_dir : string) (i : Z) (ext : string) : string :=
  joinpath lib inputs_dir ("input_" +:+ Str.of_Z i +:+ ext).
Definition output_path_of (results_dir : string) (i : Z) : string :=
  joinpath lib results_dir ("output_" +:+ Str.of_Z i +:+ ".png").

Definition body_path (args : Args) : string := mk_path lib (issue_body_file args).
Definition inputs_dir_of (args : Args) : string :=
  joinpath lib (mk_path lib (output_dir args)) "inputs".
Definition results_dir_of (args : Args) : string :=
  joinpath lib (mk_path lib (output_dir args)) "results".
Definition manifest_path (args : Args) : string :=
  joinpath lib (mk_path lib (output_dir args)) "manifest.json".

(** [s'] is [s] after some calls that belong to the processing of items. *)
Definition extends (s s' : Sys W) : Prop :=
  ∃ evs, trace s' = trace s ++ evs ∧ Forall item_event evs.

(** [urls] is the reference list of the run: the supplied array when
    there is one, what the Extractor finds in the body otherwise. *)
Definition resolved (args : Args) (issue_body : string) (urls : list string) : Prop :=
  match urls_json args with
  | EmptyString => urls = extract_image_urls issue_body
  | doc => json_loads lib doc = Return urls
  end.

(** The call that resolves the reference list. *)
Definition resolve_event (args : Args) (issue_body : string) : event :=
  match urls_json args with
  | EmptyString => EvExtract issue_body
  | doc => EvJsonLoads doc
  end.

(** The manifest of a run over [urls] whose entries are [its]. *)
Definition manifest_of (args : Args) (urls : list string) (its : list Item) : Manifest :=
  mkManifest (arg_issue_number args) (Z.of_nat (length urls)) (count_ok its) its.

(** The shapes a run can take, from a world [w] and an empty trace: it
    stops at the first of the four preliminary calls that raises, or it
    processes every reference and hands the manifest to [write_text]. *)
Inductive run_shape (args : Args) (w : W) : result Z → Sys W → Prop :=
| run_read_raises e w1 :
    read_text env (body_path args) w = (Raise e, w1) →
    run_shape args w (Raise e) (mkSys w1 [EvReadText (body_path args)])
| run_loads_raises body w1 e :
    read_text env (body_path args) w = (Return body, w1) →
    urls_json args ≠ EmptyString →
    json_loads lib (urls_json args) = Raise e →
    run_shape args w (Raise e)
      (mkSys w1 [EvReadText (body_path args); EvJsonLoads (urls_json args)])
| run_mkdir_inputs_raises body w1 urls e w2 :
    read_text env (body_path args) w = (Return body, w1) →
    resolved args body urls →
    mkdir env (inputs_dir_of args) w1 = (Raise e, w2) →
    run_shape args w (Raise e)
      (mkSys w2 [EvReadText (body_path args); resolve_event args body;
                 EvMkdir (inputs_dir_of args)])
| run_mkdir_results_raises body w1 urls w2 e w3 :
    read_text env (body_path args) w = (Return body, w1) →
    resolved args body urls →
    mkdir env (inputs_dir_of args) w1 = (Return tt, w2) →
    mkdir env (results_dir_of args) w2 = (Raise e, w3) →
    run_shape args w (Raise e)
      (mkSys w3 [EvReadText (body_path args); resolve_event args body;
                 EvMkdir (inputs_dir_of args); EvMkdir (results_dir_of args)])
| run_writes body w1 urls w2 w3 its evs w4 r w5 :
    read_text env (body_path args) w = (Return body, w1) →
    resolved args body urls →
    mkdir env (inputs_dir_of args) w1 = (Return tt, w2) →
    mkdir env (results_dir_of args) w2 = (Return tt, w3) →
    entries 1 urls its →
    Forall item_event evs →
    write_text env (manifest_path args) (manifest_of args urls its) w4 = (r, w5) →
    run_shape args w
      (match r with Return _ => Return 0 | Raise e => Raise e end)
      (mkSys w5 ([EvReadText (body_path args); resolve_event args body;
                  EvMkdir (inputs_dir_of args); EvMkdir (results_dir_of args)]
                 ++ evs
                 ++ [EvWriteText (manifest_path args) (manifest_of args urls its)])).
End WorkerNotions.

(** ** Further notions *)

(** Every character of the text passes the test. *)
Fixpoint all_chars (f : ascii → bool) (s : string) : bool :=
  match s with
  | EmptyString => true
  | String c s' => f c && all_chars f s'
  end.

(** Neither a blank nor a closing parenthesis: what a Markdown URL is
    made of. *)
Definition markdown_url_char (c : ascii) : bool :=
  negb (Str.isspace c) && negb (Ascii.eqb c ")").

(** Not a quote: what an HTML URL is made of. *)
Definition html_url_char (c : ascii) : bool := negb (Re.mem c quotes).

(** The text of a Markdown image. *)
Definition markdown_image (alt target : string) : string :=
  "![" +:+ alt +:+ "](" +:+ target +:+ ")".


(** A text without blanks at either end. *)
Definition trimmed (s : string) : Prop := Str.lstrip s = s ∧ Str.rstrip s = s.

(** A single path component: not empty, not [.], without a slash. *)
Definition component (name : string) : Prop :=
  name ≠ EmptyString ∧ name ≠ "."
  ∧ all_chars (λ c, negb (Ascii.eqb c "/")) name = true.

(** The name of the output file of item [i]. *)
Definition output_name (i : Z) : string := "output_" +:+ Str.of_Z i +:+ ".png".

(** The next character of the text, if any, fails the test. *)
Definition stops (c : Re.cset) (s : string) : Prop :=
  match s with
  | EmptyString => True
  | String x _ => Re.accepts c x = false
  end.

(** The URLs of the fetches among some calls, in order. *)
Definition fetched (evs : list event) : list string :=
  omap (λ ev, match ev with EvUrlopen u => Some u | _ => None end) evs.

(** Extension inference returns for this URL, as the loop calls it. *)
Definition infers (lib : Lib) (u : string) : bool :=
  match infer_extension lib u None with
  | Return _ => true
  | Raise _ => false
  end.

(** [Request(url)] returns for this URL. *)
Definition requests {W Resp : Type} (env : Env W Resp) (u : string) : bool :=
  match request env u with
  | Return _ => true
  | Raise _ => false
  end.

(** The calls of one iteration of the loop, read off the results of the
    steps it takes: none when extension inference or [Request(url)]
    raises; the fetch alone when [urlopen] or [read] raises or the body
    is empty; the fetch and the write when [write_bytes] raises; the
    fetch, the write and the run of the transform otherwise. *)
Definition calls_of (lib : Lib) {W Resp : Type} (env : Env W Resp)
    (inputs_dir results_dir : string) (i : Z) (u : string) (w : W) : list event :=
  match infer_extension lib u None with
  | Raise _ => []
  | Return ext =>
      let input_path := input_path_of lib inputs_dir i ext in
      let output_path := output_path_of lib results_dir i in
      match request env u with
      | Raise _ => []
      | Return _ =>
          match urlopen env u w with
          | (Raise _, _) => [EvUrlopen u]
          | (Return response, w1) =>
              match response_read env response w1 with
              | (Raise _, _) => [EvUrlopen u]
              | (Return EmptyString, _) => [EvUrlopen u]
              | (Return data, w2) =>
                  match write_bytes env input_path data w2 with
                  | (Raise _, _) => [EvUrlopen u; EvWriteBytes input_path]
                  | (Return _, _) =>
                      [EvUrlopen u; EvWriteBytes input_path;
                       EvSubprocess [sys_executable env; "main.py";
                                     input_path; output_path]]
                  end
              end
          end
      end
  end.

(** The fields of an entry: a log is always there; the input and output
    paths are either both absent, on an entry that failed before the
    transform ran, or both present with the names the loop gives them. *)
Definition item_fields (lib : Lib) (inputs_dir results_dir : string) (it : Item) : Prop :=
  (∃ message, log it = Some message)
  ∧ ((input it = None ∧ output it = None ∧ item_status it = Failed)
     ∨ ∃ ext, infer_extension lib (url it) None = Return ext
              ∧ input it = Some (input_path_of lib inputs_dir (index it) ext)
              ∧ output it = Some (output_path_of lib results_dir (index it))).

(** Further scenarios for the reference implementation. *)
Module Scenarios.

(** A network where every URL answers with an empty body. *)
Definition env_empty : Env Reference.World string :=
  Reference.env (λ _, Return EmptyString) Reference.copy.

(** A file system where no directory can be made. *)
Definition env_readonly : Env Reference.World string :=
  {| read_text := Reference.read_file;
     mkdir := λ p w, (Raise (Exception "PermissionError"
                               ("[Errno 13] Permission denied: " +:+ p)), w);
     request := request Reference.env1;
     urlopen := urlopen Reference.env1;
     response_read := response_read Reference.env1;
     response_close := response_close Reference.env1;
     write_bytes := write_bytes Reference.env1;
     subprocess_run := subprocess_run Reference.env1;
     path_exists := path_exists Reference.env1;
     write_text := write_text Reference.env1;
     sys_executable := sys_executable Reference.env1 |}.

(** A transform that pads what it prints with blanks. *)
Definition chatty : Reference.program :=
  λ c, (mkCompleted 0 "  converted " " ok  ", Some c).
Definition env_chatty : Env Reference.World string :=
  Reference.env Reference.web chatty.

(** A transform that leaves a partial output and exits with status 3. *)
Definition broken : Reference.program :=
  λ c, (mkCompleted 3 "" " cannot decode ", Some "PARTIAL").
Definition env_broken : Env Reference.World string :=
  Reference.env Reference.web broken.

(** The world once the first image of scenario 1 has been saved. *)
Definition world_saved : Reference.World :=
  Reference.put_file "out/inputs/input_1.jpg" "JPEGDATA" Reference.world1.

(** A URL list that is not a JSON document. *)
Definition args_bad_json : Args := mkArgs "issue.md" "10" "out" "not json".

(** A URL list with a reference that has no scheme, one that [urlparse]
    rejects and one that can be fetched. *)
Definition urls_mixed : list string :=
  ["abc"; "http://[::1/a.jpg"; "https://example.com/a.jpg"].
Definition args_mixed : Args :=
  mkArgs "issue.md" "12" "out" (Reference.json_array urls_mixed).
Definition run_mixed := main Reference.lib Reference.env1 args_mixed (mkSys Reference.world1 []).
Definition manifest_mixed : Manifest := Eval vm_compute in Reference.written run_mixed.

(** An issue body without images, and no URL list. *)
Definition world_plain : Reference.World := Reference.world_with_body "no image here".
Definition args_plain : Args := mkArgs "issue.md" "11" "out" "".
Definition run_plain := main Reference.lib Reference.env1 args_plain (mkSys world_plain []).

End Scenarios.

(** * Properties *)

(** ** Deduplication *)

Section Dedup.
Implicit Types (l pending urls : list string) (seen : gset string).

Lemma filter_all (P : string → Prop) `{!∀ x, Decision (P x)} l :
  (∀ x, P x) → filter P l = l.
Proof.
  intros HP. induction l as [|x l IH]; [done|].
  rewrite filter_cons_True by done. by rewrite IH.
Qed.

Lemma first_seen_filter (P : string → Prop) `{!∀ x, Decision (P x)} l :
  first_seen (filter P l) = filter P (first_seen l).
Proof.
  induction l as [|x l IH]; [done|].
  rewrite filter_cons. destruct (decide (P x)) as [HP|HP]; simpl.
  - rewrite filter_cons_True by done. rewrite IH. f_equal.
    rewrite !list_filter_filter. apply list_filter_iff. naive_solver.
  - rewrite filter_cons_False by done. rewrite IH.
    rewrite list_filter_filter. apply list_filter_iff.
    intros y. split; [|naive_solver]. intros Hy. split; [done|]. by intros ->.
Qed.

Lemma elem_of_first_seen l x : x ∈ first_seen l ↔ x ∈ l.
Proof.
  induction l as [|y l IH]; [done|]. simpl.
  rewrite !elem_of_cons, list_elem_of_filter, IH.
  destruct (decide (x = y)); naive_solver.
Qed.

Lemma NoDup_first_seen l : NoDup (first_seen l).
Proof.
  induction l as [|x l IH]; simpl; [constructor|].
  constructor; [|by apply NoDup_filter].
  rewrite list_elem_of_filter. naive_solver.
Qed.

Lemma first_seen_app l1 l2 :
  first_seen (l1 ++ l2) = first_seen l1 ++ filter (λ y, y ∉ l1) (first_seen l2).
Proof.
  induction l1 as [|x l1 IH]; simpl.
  - symmetry. apply filter_all. intros y. apply not_elem_of_nil.
  - f_equal. rewrite IH, filter_app, list_filter_filter. f_equal.
    apply list_filter_iff. intros y. rewrite elem_of_cons. naive_solver.
Qed.

(** The loop computes the first occurrences of the values not yet seen,
    after what it had already collected. *)
Lemma dedup_loop_first_seen pending seen urls :
  dedup_loop pending seen urls
  = urls ++ filter (λ y, y ∉ seen) (first_seen pending).
Proof.
  revert seen urls. induction pending as [|x pending IH]; intros seen urls; simpl.
  - by rewrite app_nil_r.
  - destruct (decide (x ∈ seen)) as [Hx|Hx].
    + rewrite IH. f_equal. rewrite filter_cons_False by naive_solver.
      rewrite list_filter_filter. apply list_filter_iff.
      intros y. destruct (decide (y = x)) as [->|]; naive_solver.
    + rewrite IH, <- app_assoc. f_equal. simpl.
      rewrite filter_cons_True by done. f_equal.
      rewrite list_filter_filter. apply list_filter_iff.
      intros y. rewrite elem_of_union, elem_of_singleton. naive_solver.
Qed.

Lemma extract_image_urls_first_seen body :
  extract_image_urls body
  = first_seen (Re.findall markdown_pattern body ++ Re.findall html_pattern body).
Proof.
  unfold extract_image_urls. rewrite dedup_loop_first_seen. simpl.
  apply filter_all. intros y. apply not_elem_of_empty.
Qed.
End Dedup.

(** ** The matcher *)

Section Matcher.
Context {R : Type}.
Implicit Types (p : list Re.item) (s t : string) (k : string → string → option R).

Lemma run_star_cons c p x s k :
  Re.run (Re.Star c :: p) (String x s) k
  = if Re.accepts c x then
      match Re.run (Re.Star c :: p) s (λ t r, k (String x t) r) with
      | Some r => Some r
      | None => Re.run p (String x s) k
      end
    else Re.run p (String x s) k.
Proof. reflexivity. Qed.

Lemma run_plus_cons c p x s k :
  Re.run (Re.Plus c :: p) (String x s) k
  = if Re.accepts c x then Re.run (Re.Star c :: p) s (λ t r, k (String x t) r)
    else None.
Proof. reflexivity. Qed.

Lemma run_star_sound c p : sound R p → sound R (Re.Star c :: p).
Proof.
  intros IH s. induction s as [|x s IHs]; intros k r H.
  - apply IH in H as (t & rest & -> & Hm & Hk).
    exists t, rest. split; [done|]. split; [|done].
    exists EmptyString, t. by repeat split.
  - rewrite run_star_cons in H. destruct (Re.accepts c x) eqn:Hx.
    + destruct (Re.run (Re.Star c :: p) s _) as [r'|] eqn:E.
      * injection H as ->.
        apply IHs in E as (t & rest & -> & (t1 & t2 & -> & H1 & H2) & Hk).
        exists (String x (t1 +:+ t2)), rest. split; [done|]. split; [|done].
        exists (String x t1), t2. by repeat split.
      * apply IH in H as (t & rest & Hs & Hm & Hk).
        exists t, rest. split; [done|]. split; [|done].
        exists EmptyString, t. by repeat split.
    + apply IH in H as (t & rest & Hs & Hm & Hk).
      exists t, rest. split; [done|]. split; [|done].
      exists EmptyString, t. by repeat split.
Qed.

Lemma run_sound p : sound R p.
Proof.
  induction p as [|[c|c|c|c] p IH].
  - intros s k r H. exists EmptyString, s. by repeat split.
  - intros [|x s] k r H; simpl in H; [done|].
    destruct (Re.accepts c x) eqn:Hx; [|done].
    apply IH in H as (t & rest & -> & Hm & Hk).
    exists (String x t), rest. split; [done|]. split; [|done].
    simpl. eauto.
  - intros [|x s] k r H; simpl in H.
    + apply IH in H as (t & rest & Hs & Hm & Hk).
      exists t, rest. simpl. eauto.
    + destruct (Re.accepts c x) eqn:Hx.
      * destruct (Re.run p s _) as [r'|] eqn:E.
        -- injection H as ->. apply IH in E as (t & rest & -> & Hm & Hk).
           exists (String x t), rest. split; [done|]. split; [|done].
           simpl. right. eauto.
        -- apply IH in H as (t & rest & Hs & Hm & Hk).
           exists t, rest. simpl. eauto.
      * apply IH in H as (t & rest & Hs & Hm & Hk).
        exists t, rest. simpl. eauto.
  - by apply run_star_sound.
  - intros [|x s] k r H; [done|].
    rewrite run_plus_cons in H. destruct (Re.accepts c x) eqn:Hx; [|done].
    apply (run_star_sound c p IH) in H
      as (t & rest & -> & (t1 & t2 & -> & H1 & H2) & Hk).
    exists (String x (t1 +:+ t2)), rest. split; [done|]. split; [|done].
    exists x, t1, t2. by repeat split.
Qed.
End Matcher.

Lemma append_assoc (a b c : string) : (a +:+ b) +:+ c = a +:+ b +:+ c.
Proof. induction a as [|x a IH]; [done|]. exact (f_equal (String x) IH). Qed.

Lemma append_length (a b : string) :
  String.length (a +:+ b) = (String.length a + String.length b)%nat.
Proof. induction a as [|x a IH]; [done|]. exact (f_equal S IH). Qed.

(** A match splits the text in what precedes the group, the group and what
    follows it. *)
Lemma match_at_sound p s g rest :
  Re.match_at p s = Some (g, rest) →
  ∃ t0 t2, s = t0 +:+ g +:+ t2 +:+ rest
           ∧ matches (Re.before p) t0 ∧ matches (Re.group p) g
           ∧ matches (Re.after p) t2.
Proof.
  unfold Re.match_at. intros H.
  apply run_sound in H as (t0 & r1 & -> & H0 & H).
  apply run_sound in H as (g' & r2 & -> & H1 & H).
  apply run_sound in H as (t2 & r3 & -> & H2 & H).
  injection H as -> ->. by exists t0, t2.
Qed.

(** Every element of [findall] is the group of a match at some position. *)
Lemma findall_from_sound p s skip u :
  u ∈ Re.findall_from p s skip →
  ∃ pre s' rest, s = pre +:+ s' ∧ Re.match_at p s' = Some (u, rest).
Proof.
  revert skip. induction s as [|x s IH]; intros skip H.
  - destruct skip; simpl in H; [|by apply elem_of_nil in H].
    destruct (Re.match_at p EmptyString) as [[g rest]|] eqn:E;
      [|by apply elem_of_nil in H].
    apply list_elem_of_singleton in H as ->. by exists EmptyString, EmptyString, rest.
  - assert (∀ n, u ∈ Re.findall_from p s n →
                 ∃ pre s' rest, String x s = pre +:+ s'
                                ∧ Re.match_at p s' = Some (u, rest)) as Hrec.
    { intros n Hn. apply IH in Hn as (pre & s' & rest & -> & Hm).
      by exists (String x pre), s', rest. }
    destruct skip; simpl in H; [|by eapply Hrec].
    destruct (Re.match_at p (String x s)) as [[g rest]|] eqn:E; [|by eapply Hrec].
    apply elem_of_cons in H as [->|H]; [|by eapply Hrec].
    by exists EmptyString, (String x s), rest.
Qed.

(** *** [findall] resumes where the last match ended *)

Lemma findall_from_skip p pre s :
  Re.findall_from p (pre +:+ s) (String.length pre) = Re.findall_from p s 0.
Proof. induction pre as [|x pre IH]; [done|]. exact IH. Qed.

Lemma findall_miss p x s :
  Re.match_at p (String x s) = None →
  Re.findall p (String x s) = Re.findall p s.
Proof. unfold Re.findall. simpl. by intros ->. Qed.

Lemma findall_hit p x s g pre rest :
  String x s = pre +:+ rest →
  pre ≠ EmptyString →
  Re.match_at p (String x s) = Some (g, rest) →
  Re.findall p (String x s) = g :: Re.findall p rest.
Proof.
  intros Hs Hpre Hm. unfold Re.findall. simpl. rewrite Hm. f_equal.
  destruct pre as [|y pre]; [done|]. injection Hs as -> ->.
  rewrite append_length.
  replace (String.length pre + String.length rest - String.length rest)%nat
    with (String.length pre) by lia.
  apply findall_from_skip.
Qed.

(** A match of a pattern that starts with a one-character item consumes
    at least that character, so the scan always moves on. *)
Lemma findall_hit_one p k q s g rest :
  Re.before p = Re.One k :: q →
  Re.match_at p s = Some (g, rest) →
  Re.findall p s = g :: Re.findall p rest.
Proof.
  intros Hp Hm. pose proof Hm as Hm'.
  apply match_at_sound in Hm' as (t0 & t2 & Hs & H0 & _).
  rewrite Hp in H0. destruct H0 as (x & t' & -> & _).
  destruct s as [|y s]; [done|].
  eapply (findall_hit p y s g (String x t' +:+ g +:+ t2) rest); [|done|done].
  by rewrite Hs, !append_assoc.
Qed.

Lemma findall_markdown_hit s g rest :
  Re.match_at markdown_pattern s = Some (g, rest) →
  Re.findall markdown_pattern s = g :: Re.findall markdown_pattern rest.
Proof.
  by apply findall_hit_one
    with (k := Re.Lit "!") (q := tl (Re.before markdown_pattern)).
Qed.

Lemma findall_html_hit s g rest :
  Re.match_at html_pattern s = Some (g, rest) →
  Re.findall html_pattern s = g :: Re.findall html_pattern rest.
Proof.
  by apply findall_hit_one
    with (k := Re.Lit "<") (q := tl (Re.before html_pattern)).
Qed.








(** ** The worker *)

Section WorkerFacts.
Variable lib : Lib.
Context {W Resp : Type}.
Variable env : Env W Resp.

Implicit Types (s : Sys W) (m : Manifest) (e : exn) (u : string) (i : Z).

Lemma extends_refl s : extends s s.
Proof. exists []. by rewrite app_nil_r. Qed.

Lemma extends_trans s1 s2 s3 : extends s1 s2 → extends s2 s3 → extends s1 s3.
Proof.
  intros (e1 & H1 & F1) (e2 & H2 & F2). exists (e1 ++ e2).
  rewrite H2, H1, app_assoc. split; [done|]. by apply Forall_app.
Qed.

Ltac step :=
  unfold bind, emit, modify, sys_call, finally, raise, ret, of_result,
    on_sys, on_item, on_manifest, try_except in *; simpl in *.

Lemma download_image_extends u p s r s' :
  download_image env u p s = (r, s') → extends s s'.
Proof.
  unfold download_image. step.
  destruct (request env u) as [[]|e0]; simpl.
  2:{ intros [= <- <-]. apply extends_refl. }
  destruct (urlopen env u (world s)) as [[resp|e] w1]; simpl.
  - destruct (response_read env resp w1) as [[[|c data]|e] w2]; simpl.
    + intros [= <- <-]. exists [EvUrlopen u]. simpl. repeat constructor.
    + destruct (write_bytes env p (String c data) w2) as [r' w3]; simpl.
      intros [= <- <-]. exists [EvUrlopen u; EvWriteBytes p]. simpl.
      rewrite <- app_assoc. repeat constructor.
    + intros [= <- <-]. exists [EvUrlopen u]. simpl. repeat constructor.
  - intros [= <- <-]. exists [EvUrlopen u]. simpl. repeat constructor.
Qed.

Lemma run_main_extends a b s r s' :
  run_main env a b s = (r, s') → extends s s'.
Proof.
  unfold run_main. step.
  destruct (subprocess_run env _ (world s)) as [[cp|e] w1]; simpl;
    intros [= <- <-]; eexists [_]; simpl; repeat constructor.
Qed.

(** One iteration, stage by stage: the first stage that raises decides
    the entry; when none does, the transform's verdict decides it. *)
Lemma loop_body_cases ins res i u m s :
  loop_body lib env ins res i u m s =
  match infer_extension lib u None with
  | Raise e => (Return (append_item (failed_item i u e) m), s)
  | Return ext =>
      match download_image env u (input_path_of lib ins i ext) s with
      | (Raise e, s1) => (Return (append_item (failed_item i u e) m), s1)
      | (Return _, s1) =>
          match run_main env (input_path_of lib ins i ext)
                  (output_path_of lib res i) s1 with
          | (Raise e, s2) => (Return (append_item (failed_item i u e) m), s2)
          | (Return (success, message), s2) =>
              (Return (append_item
                         (transformed_item i u (input_path_of lib ins i ext)
                            (output_path_of lib res i) success message)
                         (if success then incr_processed m else m)), s2)
          end
      end
  end.
Proof.
  unfold loop_body, try_body, except_handler, input_path_of, output_path_of. step.
  destruct (infer_extension lib u None) as [ext|e]; simpl; [|done].
  destruct (download_image env u _ s) as [[[]|e] s1]; simpl; [|done].
  destruct (run_main env _ _ s1) as [[[[] message]|e] s2]; simpl; done.
Qed.

Lemma count_ok_app its1 its2 : count_ok (its1 ++ its2) = count_ok its1 + count_ok its2.
Proof. unfold count_ok. rewrite filter_app, length_app. lia. Qed.

(** An iteration returns, appends one entry for its reference and counts
    it when its status is [ok]. *)
Lemma loop_body_spec ins res i u m s :
  ∃ it s',
    loop_body lib env ins res i u m s
    = (Return (mkManifest (issue_number m) (total_images m)
                 (processed_images m + count_ok [it]) (items m ++ [it])), s')
    ∧ entry_for i u it ∧ extends s s'.
Proof.
  rewrite loop_body_cases.
  assert (∀ x, x + 0 = x) as Z0 by (intros; lia).
  destruct (infer_extension lib u None) as [ext|e].
  2:{ exists (failed_item i u e), s. unfold append_item, count_ok; simpl.
      rewrite Z0. repeat split; auto using extends_refl. }
  destruct (download_image env u _ s) as [[[]|e] s1] eqn:Hd.
  2:{ exists (failed_item i u e), s1. unfold append_item, count_ok; simpl.
      rewrite Z0. repeat split; eauto using download_image_extends. }
  destruct (run_main env _ _ s1) as [[[success message]|e] s2] eqn:Hr.
  2:{ exists (failed_item i u e), s2. unfold append_item, count_ok; simpl.
      rewrite Z0. repeat split; eauto using download_image_extends,
                                    run_main_extends, extends_trans. }
  eexists (transformed_item i u _ _ success message), s2.
  split; [|split; [|eauto using download_image_extends,
                      run_main_extends, extends_trans]].
  - destruct success; unfold append_item, count_ok; simpl; [done|by rewrite Z0].
  - destruct success; repeat split; auto.
Qed.

Lemma for_each_spec ins res urls : ∀ i m s,
  ∃ its s',
    for_each lib env ins res i urls m s
    = (Return (mkManifest (issue_number m) (total_images m)
                 (processed_images m + count_ok its) (items m ++ its)), s')
    ∧ entries i urls its ∧ extends s s'.
Proof.
  induction urls as [|u urls IH]; intros i m s.
  - exists [], s. simpl. unfold ret. rewrite app_nil_r.
    replace (processed_images m + count_ok []) with (processed_images m)
      by (unfold count_ok; simpl; lia).
    destruct m. repeat split; auto using extends_refl. constructor.
  - simpl. unfold bind.
    destruct (loop_body_spec ins res i u m s) as (it & s1 & -> & Hit & H1).
    destruct (IH (i + 1) (mkManifest (issue_number m) (total_images m)
                 (processed_images m + count_ok [it]) (items m ++ [it])) s1)
      as (its & s2 & -> & Hits & H2).
    exists (it :: its), s2. simpl. split; [|split].
    + rewrite <- app_assoc. simpl. do 2 f_equal. f_equal.
      change (it :: its) with ([it] ++ its). rewrite count_ok_app. lia.
    + by constructor.
    + eauto using extends_trans.
Qed.

(** The loop over a concatenation is the loop over the first part,
    followed by the loop over the second part with the indices shifted. *)
Lemma for_each_app ins res l1 l2 : ∀ i m s,
  for_each lib env ins res i (l1 ++ l2) m s
  = bind (for_each lib env ins res i l1 m)
      (for_each lib env ins res (i + Z.of_nat (length l1)) l2) s.
Proof.
  induction l1 as [|u l1 IH]; intros i m s.
  - simpl. unfold bind, ret. by rewrite Z.add_0_r.
  - change (length (u :: l1)) with (S (length l1)).
    replace (i + Z.of_nat (S (length l1))) with (i + 1 + Z.of_nat (length l1)) by lia.
    simpl. unfold bind.
    destruct (loop_body lib env ins res i u m s) as [[m1|e] s1]; [|done].
    by rewrite IH.
Qed.

(** The run from the first [mkdir] on, once the references are known. *)
Lemma main_tail_shape args w body w1 urls pre r s' :
  read_text env (body_path lib args) w = (Return body, w1) →
  resolved lib args body urls →
  pre = [EvReadText (body_path lib args); resolve_event args body] →
  bind (bind (emit (EvMkdir (inputs_dir_of lib args)))
             (λ _, sys_call (mkdir env (inputs_dir_of lib args))))
    (λ _, bind (bind (emit (EvMkdir (results_dir_of lib args)))
                  (λ _, sys_call (mkdir env (results_dir_of lib args))))
      (λ _, bind (for_each lib env (inputs_dir_of lib args) (results_dir_of lib args)
                    1 urls (mkManifest (arg_issue_number args)
                              (Z.of_nat (length urls)) 0 []))
         (λ manifest,
            bind (bind (emit (EvWriteText (manifest_path lib args) manifest))
                    (λ _, sys_call (write_text env (manifest_path lib args) manifest)))
              (λ _, ret 0))))
    (mkSys w1 pre) = (r, s') →
  run_shape lib env args w r s'.
Proof.
  intros Hread Hres -> H. step.
  destruct (mkdir env _ w1) as [[[]|e] w2] eqn:Hm1; simpl in H.
  2:{ injection H as <- <-. by eapply run_mkdir_inputs_raises. }
  destruct (mkdir env _ w2) as [[[]|e] w3] eqn:Hm2; simpl in H.
  2:{ injection H as <- <-. by eapply run_mkdir_results_raises. }
  match type of H with context [for_each _ _ ?a ?b ?c ?d ?m ?s] =>
    destruct (for_each_spec a b d c m s) as (its & s3 & Heq & Hent & evs & Htr & Hev)
  end.
  rewrite Heq in H. simpl in H, Htr.
  destruct (write_text env _ _ (world s3)) as [r5 w5] eqn:Hw.
  pose proof (run_writes lib env args w body w1 urls w2 w3 its evs (world s3)
                r5 w5 Hread Hres Hm1 Hm2 Hent Hev Hw) as X.
  rewrite Htr in H. simpl in H.
  destruct r5 as [[]|e]; injection H as <- <-; exact X.
Qed.

(** Every run from an empty trace has one of the shapes of [run_shape]. *)
Lemma main_shape args w r s' :
  main lib env args (mkSys w []) = (r, s') → run_shape lib env args w r s'.
Proof.
  intros H. unfold main in H. step.
  destruct (read_text env _ w) as [[body|e] w1] eqn:Hread; simpl in H.
  2:{ injection H as <- <-. by apply run_read_raises. }
  unfold resolve_urls in H.
  destruct (urls_json args) as [|c doc] eqn:Hdoc; step.
  - eapply (main_tail_shape args w body w1 (extract_image_urls body) _ r s' Hread);
      [unfold resolved; by rewrite Hdoc
      |unfold resolve_event; by rewrite Hdoc
      |exact H].
  - destruct (json_loads lib (String c doc)) as [urls|e] eqn:Hj; simpl in H.
    + eapply (main_tail_shape args w body w1 urls _ r s' Hread);
        [unfold resolved; by rewrite Hdoc
        |unfold resolve_event; by rewrite Hdoc
        |exact H].
    + injection H as <- <-. rewrite <- Hdoc.
      eapply run_loads_raises; eauto; by rewrite Hdoc.
Qed.

Lemma entries_length i urls its : entries i urls its → length its = length urls.
Proof. induction 1; simpl; congruence. Qed.

Lemma entries_lookup i urls its k u :
  entries i urls its → urls !! k = Some u →
  ∃ it, its !! k = Some it ∧ entry_for (i + Z.of_nat k) u it.
Proof.
  intros H. revert k. induction H as [|i u' urls it its Hit _ IH]; intros k Hk; [done|].
  destruct k as [|k]; simpl in Hk.
  - injection Hk as ->. exists it. split; [done|]. by rewrite Z.add_0_r.
  - destruct (IH k Hk) as (it' & ? & ?). exists it'. split; [done|].
    by replace (i + Z.of_nat (S k)) with (i + 1 + Z.of_nat k) by lia.
Qed.

Lemma entries_urls i urls its : entries i urls its → url <$> its = urls.
Proof.
  induction 1 as [|i u urls it its (_ & Hu & _) _ IH]; [done|].
  by rewrite fmap_cons, IH, Hu.
Qed.

Lemma entries_final i urls its it :
  entries i urls its → it ∈ its → item_status it = Ok ∨ item_status it = Failed.
Proof.
  induction 1 as [|i u urls it' its (_ & _ & Hst) _ IH]; intros Hin.
  - by apply elem_of_nil in Hin.
  - apply elem_of_cons in Hin as [->|Hin]; auto.
Qed.

Lemma count_ok_le its : count_ok its ≤ Z.of_nat (length its).
Proof. unfold count_ok. pose proof (length_filter (λ it, item_status it = Ok) its). lia. Qed.

Lemma item_event_not_write evs p m : Forall item_event evs → EvWriteText p m ∉ evs.
Proof. intros H Hin. by eapply Forall_forall in H; [|exact Hin]. Qed.

Lemma item_event_not_extract evs t : Forall item_event evs → EvExtract t ∉ evs.
Proof. intros H Hin. by eapply Forall_forall in H; [|exact Hin]. Qed.

Lemma resolve_event_not_write args body p m : resolve_event args body ≠ EvWriteText p m.
Proof. unfold resolve_event. by destruct (urls_json args). Qed.

(** A manifest handed to [write_text] is the manifest of the resolved
    references and of one entry for each of them. *)
Lemma shape_written args w r s' p m :
  run_shape lib env args w r s' → EvWriteText p m ∈ trace s' →
  ∃ body w1 urls its,
    read_text env (body_path lib args) w = (Return body, w1)
    ∧ resolved lib args body urls ∧ entries 1 urls its
    ∧ m = manifest_of args urls its ∧ p = manifest_path lib args.
Proof.
  pose proof (resolve_event_not_write args) as Hne.
  destruct 1 as [e w1 Hread|body w1 e Hread Hdoc Hj|body w1 urls e w2 Hread Hres Hm1
                |body w1 urls w2 e w3 Hread Hres Hm1 Hm2
                |body w1 urls w2 w3 its evs w4 r w5 Hread Hres Hm1 Hm2 Hent Hev Hw];
    simpl; intros Hin.
  all: repeat (apply elem_of_cons in Hin as [Hin|Hin];
               [by (discriminate Hin || (symmetry in Hin; by apply Hne in Hin))|]).
  1-4: by apply elem_of_nil in Hin.
  apply elem_of_app in Hin as [Hin|Hin]; [by apply item_event_not_write in Hin|].
  apply list_elem_of_singleton in Hin. injection Hin as -> ->.
  by exists body, w1, urls, its.
Qed.

Lemma shape_extract args w r s' t :
  run_shape lib env args w r s' → EvExtract t ∈ trace s' →
  urls_json args = EmptyString.
Proof.
  assert (∀ body, resolve_event args body = EvExtract t → urls_json args = EmptyString)
    as Hev'.
  { unfold resolve_event. by destruct (urls_json args). }
  destruct 1 as [e w1 Hread|body w1 e Hread Hdoc Hj|body w1 urls e w2 Hread Hres Hm1
                |body w1 urls w2 e w3 Hread Hres Hm1 Hm2
                |body w1 urls w2 w3 its evs w4 r w5 Hread Hres Hm1 Hm2 Hent Hev Hw];
    simpl; intros Hin;
    repeat (apply elem_of_cons in Hin as [Hin|Hin];
            [by (discriminate Hin || (symmetry in Hin; eauto))|]);
    try by apply elem_of_nil in Hin.
  apply elem_of_app in Hin as [Hin|Hin]; [by apply item_event_not_extract in Hin|].
  by apply list_elem_of_singleton in Hin.
Qed.

Lemma shape_first_event args w r s' :
  run_shape lib env args w r s' →
  ∃ rest, trace s' = EvReadText (body_path lib args) :: rest.
Proof. destruct 1; simpl; eauto. Qed.

(** The body of the [try], stage by stage: a stage that raises leaves
    the item and the manifest as they were. *)
Lemma try_body_cases ins res i u (f : Frame W) :
  try_body lib env ins res i u f =
  match infer_extension lib u None with
  | Raise e => (Raise e, f)
  | Return ext =>
      let inp := input_path_of lib ins i ext in
      let out := output_path_of lib res i in
      match download_image env u inp (f_sys f) with
      | (Raise e, s1) => (Raise e, mkFrame (f_item f) (f_manifest f) s1)
      | (Return _, s1) =>
          match run_main env inp out s1 with
          | (Raise e, s2) => (Raise e, mkFrame (f_item f) (f_manifest f) s2)
          | (Return (success, message), s2) =>
              (Return tt,
               mkFrame
                 (set_log message
                    (set_status (if success then Ok else Failed)
                       (set_output out (set_input inp (f_item f)))))
                 (if success then incr_processed (f_manifest f) else f_manifest f)
                 s2)
          end
      end
  end.
Proof.
  unfold try_body, input_path_of, output_path_of. step.
  destruct (infer_extension lib u None) as [ext|e]; simpl; [|done].
  destruct (download_image env u _ (f_sys f)) as [[[]|e] s1]; simpl; [|done].
  destruct (run_main env _ _ s1) as [[[[] message]|e] s2]; simpl; done.
Qed.

Lemma loop_body_catches ins res i u m s e (f' : Frame W) :
  try_body lib env ins res i u (mkFrame (mkItem i u Skipped None None None) m s)
  = (Raise e, f') →
  loop_body lib env ins res i u m s
  = (Return (append_item (failed_item i u e) m), f_sys f').
Proof.
  intros H. unfold loop_body, try_except. rewrite H.
  rewrite try_body_cases in H. simpl in H.
  destruct (infer_extension lib u None) as [ext|e0]; [|by injection H as <- <-].
  destruct (download_image env u _ s) as [[[]|e0] s1]; [|by injection H as <- <-].
  destruct (run_main env _ _ s1) as [[[success message]|e0] s2];
    [done|by injection H as <- <-].
Qed.

Lemma download_image_request_raises u p s e :
  request env u = Raise e → download_image env u p s = (Raise e, s).
Proof. intros H. unfold download_image. step. by rewrite H. Qed.

Lemma download_image_urlopen_raises u p s e w1 :
  request env u = Return tt →
  urlopen env u (world s) = (Raise e, w1) →
  download_image env u p s = (Raise e, mkSys w1 (trace s ++ [EvUrlopen u])).
Proof. intros H0 H. unfold download_image. step. rewrite H0. simpl. by rewrite H. Qed.

Lemma download_image_read_raises u p s resp w1 e w2 :
  request env u = Return tt →
  urlopen env u (world s) = (Return resp, w1) →
  response_read env resp w1 = (Raise e, w2) →
  download_image env u p s
  = (Raise e, mkSys (response_close env resp w2) (trace s ++ [EvUrlopen u])).
Proof.
  intros H0 H1 H2. unfold download_image. step.
  rewrite H0. simpl. rewrite H1. simpl. by rewrite H2.
Qed.

Lemma download_image_empty_body u p s resp w1 w2 :
  request env u = Return tt →
  urlopen env u (world s) = (Return resp, w1) →
  response_read env resp w1 = (Return EmptyString, w2) →
  download_image env u p s
  = (Raise (RuntimeError ("Empty response: " +:+ u)),
     mkSys (response_close env resp w2) (trace s ++ [EvUrlopen u])).
Proof.
  intros H0 H1 H2. unfold download_image. step.
  rewrite H0. simpl. rewrite H1. simpl. by rewrite H2.
Qed.

Lemma run_main_spec inp out s success message s' :
  run_main env inp out s = (Return (success, message), s') →
  ∃ cp, subprocess_run env [sys_executable env; "main.py"; inp; out] (world s)
        = (Return cp, world s')
        ∧ success = (returncode cp =? 0) && path_exists env out (world s')
        ∧ message = transform_log cp.
Proof.
  unfold run_main. step.
  destruct (subprocess_run env _ (world s)) as [[cp|e] w1]; simpl; [|done].
  intros [= <- <- <-]. by exists cp.
Qed.

Lemma run_main_returns inp out s cp w1 :
  subprocess_run env [sys_executable env; "main.py"; inp; out] (world s)
  = (Return cp, w1) →
  run_main env inp out s
  = (Return ((returncode cp =? 0) && path_exists env out w1, transform_log cp),
     mkSys w1 (trace s ++ [EvSubprocess [sys_executable env; "main.py"; inp; out]])).
Proof. intros H. unfold run_main. step. by rewrite H. Qed.

Lemma is_timeout_message e : is_timeout e → exc_str e ≠ EmptyString.
Proof. by intros [->| ->]. Qed.
(** When the four preliminary calls return, the run ends by handing to
    [write_text] a manifest with one entry per reference, whatever became
    of the items. *)
Lemma shape_reaches_write args w body w1 urls w2 w3 r s' :
  read_text env (body_path lib args) w = (Return body, w1) →
  resolved lib args body urls →
  mkdir env (inputs_dir_of lib args) w1 = (Return tt, w2) →
  mkdir env (results_dir_of lib args) w2 = (Return tt, w3) →
  run_shape lib env args w r s' →
  ∃ its, entries 1 urls its
         ∧ last (trace s')
           = Some (EvWriteText (manifest_path lib args) (manifest_of args urls its)).
Proof.
  intros Hread Hres Hm1 Hm2.
  assert (∀ urls', resolved lib args body urls' → urls' = urls) as Hsame.
  { intros urls' Hres'. unfold resolved in *.
    destruct (urls_json args); congruence. }
  destruct 1 as [e w1' Hread'|body' w1' e Hread' Hdoc Hj|body' w1' urls' e w2' Hread' Hres' Hm1'
                |body' w1' urls' w2' e w3' Hread' Hres' Hm1' Hm2'
                |body' w1' urls' w2' w3' its evs w4 r w5 Hread' Hres' Hm1' Hm2' Hent Hev Hw].
  - congruence.
  - unfold resolved in Hres. destruct (urls_json args); congruence.
  - congruence.
  - rewrite Hread in Hread'. injection Hread' as <- <-. congruence.
  - rewrite Hread in Hread'. injection Hread' as <- <-.
    apply Hsame in Hres' as ->. exists its. split; [done|].
    cbn [trace]. rewrite app_assoc. apply last_snoc.
Qed.
End WorkerFacts.

(** * Examples *)

Example findall_markdown_adjacent :
  Re.findall markdown_pattern "![a](http://h/1.png)![b](HTTP://h/2.png) ![c](ftp://h/3.png)"
  = ["http://h/1.png"; "HTTP://h/2.png"].
Proof. by vm_compute. Qed.

(** The repetition before [src=] is greedy: of two candidate attributes in
    one tag, the last one is taken. *)
Example findall_html_last_src :
  Re.findall html_pattern "<img src='http://h/a.png' data-src='http://h/b.png'>"
  = ["http://h/b.png"].
Proof. by vm_compute. Qed.

Example strip_example : Str.strip "  done  " = "done".
Proof. by vm_compute. Qed.

Example run1_outcome :
  Reference.run1.1 = Return 0
  ∧ Reference.written Reference.run1 = Reference.manifest1
  ∧ item_status <$> items Reference.manifest1 = [Ok; Failed; Ok]
  ∧ log <$> items Reference.manifest1
    = [Some "done"; Some "<urlopen error timed out>"; Some "done"].
Proof. by vm_compute. Qed.

Example run2_outcome :
  Reference.run2.1 = Return 0
  ∧ item_status <$> items Reference.manifest2 = [Failed; Failed]
  ∧ processed_images Reference.manifest2 = 0.
Proof. by vm_compute. Qed.

(** * The specification's properties *)


(** C1. In every run, a manifest handed to [write_text] has exactly one
    entry per reference of the resolved list (the supplied array, or what
    the Extractor found), at the same position, with the 1-based position
    as index; the number of entries, [total_images] and the number of
    references are equal, whatever the environment makes of each item. *)
Theorem manifest_one_entry_per_reference
        (lib : Lib) {W Resp : Type} (env : Env W Resp)
        (args : Args) (w : W) r s' p (m : Manifest) :
  main lib env args (mkSys w []) = (r, s') →
  EvWriteText p m ∈ trace s' →
  ∃ body w1 urls,
    read_text env (body_path lib args) w = (Return body, w1)
    ∧ resolved lib args body urls
    ∧ length (items m) = length urls
    ∧ total_images m = Z.of_nat (length urls)
    ∧ ∀ k u, urls !! k = Some u →
             ∃ it, items m !! k = Some it ∧ index it = Z.of_nat k + 1 ∧ url it = u.
Proof.
  intros Hrun Hin. apply main_shape in Hrun.
  destruct (shape_written lib env args w r s' p m Hrun Hin)
    as (body & w1 & urls & its & Hread & Hres & Hent & -> & _).
  exists body, w1, urls. simpl. repeat split; try done.
  - by eapply entries_length.
  - intros k u Hk. destruct (entries_lookup _ _ _ k u Hent Hk) as (it & ? & Hi & Hu & _).
    exists it. repeat split; [done|lia|done].
Qed.

Lemma manifest_one_entry_per_reference_witness :
  ∃ body w1 urls,
    read_text Reference.env1 (body_path Reference.lib Reference.args1)
      Reference.world1
    = (Return body, w1)
    ∧ resolved Reference.lib Reference.args1 body urls
    ∧ length (items Reference.manifest1) = length urls
    ∧ total_images Reference.manifest1 = Z.of_nat (length urls)
    ∧ ∀ k u, urls !! k = Some u →
             ∃ it, items Reference.manifest1 !! k = Some it
                   ∧ index it = Z.of_nat k + 1 ∧ url it = u.
Proof.
  apply (manifest_one_entry_per_reference Reference.lib Reference.env1
           Reference.args1 Reference.world1 Reference.run1.1 Reference.run1.2
           "out/manifest.json" Reference.manifest1).
  - apply surjective_pairing.
  - apply (list_elem_of_lookup_2 _ 11%nat). vm_compute. reflexivity.
Defined.

(** C3. In every manifest handed to [write_text], [processed_images] is
    the number of items whose status is [ok], and it does not exceed
    [total_images]. *)
Theorem processed_images_counts_ok
        (lib : Lib) {W Resp : Type} (env : Env W Resp)
        (args : Args) (w : W) r s' p (m : Manifest) :
  main lib env args (mkSys w []) = (r, s') →
  EvWriteText p m ∈ trace s' →
  processed_images m = count_ok (items m) ∧ processed_images m ≤ total_images m.
Proof.
  intros Hrun Hin. apply main_shape in Hrun.
  destruct (shape_written lib env args w r s' p m Hrun Hin)
    as (body & w1 & urls & its & _ & _ & Hent & -> & _).
  simpl. split; [done|].
  rewrite <- (entries_length _ _ _ Hent). apply count_ok_le.
Qed.

Lemma processed_images_counts_ok_witness :
  processed_images Reference.manifest1 = count_ok (items Reference.manifest1)
  ∧ processed_images Reference.manifest1 ≤ total_images Reference.manifest1.
Proof.
  apply (processed_images_counts_ok Reference.lib Reference.env1
           Reference.args1 Reference.world1 Reference.run1.1 Reference.run1.2
           "out/manifest.json" Reference.manifest1).
  - apply surjective_pairing.
  - apply (list_elem_of_lookup_2 _ 11%nat). vm_compute. reflexivity.
Defined.

(** C9. Every item of a manifest handed to [write_text] has status [ok]
    or [failed]; the initial [skipped] never reaches the manifest. *)
Theorem written_status_is_final
        (lib : Lib) {W Resp : Type} (env : Env W Resp)
        (args : Args) (w : W) r s' p (m : Manifest) (it : Item) :
  main lib env args (mkSys w []) = (r, s') →
  EvWriteText p m ∈ trace s' →
  it ∈ items m →
  (item_status it = Ok ∨ item_status it = Failed) ∧ item_status it ≠ Skipped.
Proof.
  intros Hrun Hin Hit. apply main_shape in Hrun.
  destruct (shape_written lib env args w r s' p m Hrun Hin)
    as (body & w1 & urls & its & _ & _ & Hent & -> & _).
  simpl in Hit. pose proof (entries_final _ _ _ it Hent Hit) as Hst.
  split; [done|]. by destruct Hst as [-> | ->].
Qed.

Lemma written_status_is_final_witness :
  (item_status (failed_item 2 "https://example.com/slow.png" (URLError socket_timeout)) = Ok
   ∨ item_status (failed_item 2 "https://example.com/slow.png" (URLError socket_timeout)) = Failed)
  ∧ item_status (failed_item 2 "https://example.com/slow.png" (URLError socket_timeout))
    ≠ Skipped.
Proof.
  apply (written_status_is_final Reference.lib Reference.env1
           Reference.args1 Reference.world1 Reference.run1.1 Reference.run1.2
           "out/manifest.json" Reference.manifest1).
  - apply surjective_pairing.
  - apply (list_elem_of_lookup_2 _ 11%nat). vm_compute. reflexivity.
  - apply (list_elem_of_lookup_2 _ 1%nat). reflexivity.
Defined.

(** C7. When [--urls-json] is supplied the Extractor is not called, and
    when it decodes to a list, that list is the reference list as it
    stands: resolving returns it whatever the issue body is, and the
    manifest has its URLs, in its order, duplicates included. *)
Theorem supplied_urls_bypass_extractor
        (lib : Lib) {W Resp : Type} (env : Env W Resp) (args : Args) :
  urls_json args ≠ EmptyString →
  (∀ w r s' t, main lib env args (mkSys w []) = (r, s') → EvExtract t ∉ trace s')
  ∧ ∀ l, json_loads lib (urls_json args) = Return l →
      (∀ body (s : Sys W),
         resolve_urls lib args body s
         = (Return l, mkSys (world s) (trace s ++ [EvJsonLoads (urls_json args)])))
      ∧ (∀ w r s' p m,
           main lib env args (mkSys w []) = (r, s') →
           EvWriteText p m ∈ trace s' →
           url <$> items m = l ∧ total_images m = Z.of_nat (length l)).
Proof.
  intros Hdoc. split.
  - intros w r s' t Hrun Hin. apply main_shape in Hrun.
    by apply (shape_extract lib env args w r s' t Hrun) in Hin.
  - intros l Hl. split.
    + intros body s. unfold resolve_urls.
      destruct (urls_json args) as [|c doc]; [done|].
      unfold bind, emit, modify. simpl. by rewrite Hl.
    + intros w r s' p m Hrun Hin. apply main_shape in Hrun.
      destruct (shape_written lib env args w r s' p m Hrun Hin)
        as (body & w1 & urls & its & _ & Hres & Hent & -> & _).
      unfold resolved in Hres. destruct (urls_json args) as [|c doc]; [done|].
      rewrite Hl in Hres. injection Hres as <-. simpl.
      split; [by eapply entries_urls|done].
Qed.

Lemma supplied_urls_bypass_extractor_witness :
  url <$> items Reference.manifest2 = Reference.urls2
  ∧ total_images Reference.manifest2 = Z.of_nat (length Reference.urls2).
Proof.
  assert (urls_json Reference.args2 ≠ EmptyString) as Hdoc by done.
  apply (proj2 (supplied_urls_bypass_extractor Reference.lib Reference.env2
                  Reference.args2 Hdoc) Reference.urls2 eq_refl)
    with (w := Reference.world1) (r := Reference.run2.1) (s' := Reference.run2.2)
         (p := "out/manifest.json").
  - apply surjective_pairing.
  - apply (list_elem_of_lookup_2 _ 10%nat). vm_compute. reflexivity.
Defined.

(** C10. The issue-body file is read first in every run, whether or not
    a URL list is supplied; when that read raises, the run ends with that
    exception and the read is the only call it made: no directory is
    created, no item is processed and no manifest is written. *)
Theorem body_file_read_first
        (lib : Lib) {W Resp : Type} (env : Env W Resp) (args : Args) (w : W) :
  (∀ e w1,
     read_text env (body_path lib args) w = (Raise e, w1) →
     main lib env args (mkSys w [])
     = (Raise e, mkSys w1 [EvReadText (body_path lib args)]))
  ∧ (∀ r s',
       main lib env args (mkSys w []) = (r, s') →
       ∃ rest, trace s' = EvReadText (body_path lib args) :: rest).
Proof.
  split.
  - intros e w1 Hread. unfold main, bind, emit, modify, sys_call, body_path in *.
    simpl. by rewrite Hread.
  - intros r s' Hrun. apply main_shape in Hrun. by eapply shape_first_event.
Qed.

Lemma body_file_read_first_witness :
  Reference.run3
  = (Raise (Exception "FileNotFoundError"
              "[Errno 2] No such file or directory: missing.md"),
     mkSys Reference.world1 [EvReadText "missing.md"]).
Proof.
  apply (proj1 (body_file_read_first Reference.lib Reference.env1 Reference.args3
                  Reference.world1)).
  vm_compute. reflexivity.
Defined.

(** C4. [run_main] reports success exactly when the exit status is 0 and
    the output path exists once the process has returned.  For an item
    whose fetch succeeded: status 0 with the output missing gives an entry
    with status [failed] and leaves the counter alone; status 0 with the
    output present gives [ok] and counts the item. *)
Theorem transform_success_iff (lib : Lib) {W Resp : Type} (env : Env W Resp) :
  (∀ inp out (s : Sys W) success message s',
     run_main env inp out s = (Return (success, message), s') →
     ∃ cp,
       subprocess_run env [sys_executable env; "main.py"; inp; out] (world s)
       = (Return cp, world s')
       ∧ (success = true ↔
          returncode cp = 0 ∧ path_exists env out (world s') = true))
  ∧ (∀ ins res i u m (s : Sys W) ext s1 cp w2 present,
       infer_extension lib u None = Return ext →
       download_image env u (input_path_of lib ins i ext) s = (Return tt, s1) →
       subprocess_run env
         [sys_executable env; "main.py"; input_path_of lib ins i ext;
          output_path_of lib res i] (world s1) = (Return cp, w2) →
       returncode cp = 0 →
       path_exists env (output_path_of lib res i) w2 = present →
       (loop_body lib env ins res i u m s).1
       = Return (append_item
                   (transformed_item i u (input_path_of lib ins i ext)
                      (output_path_of lib res i) present (transform_log cp))
                   (if present then incr_processed m else m))
       ∧ item_status (transformed_item i u (input_path_of lib ins i ext)
                        (output_path_of lib res i) present (transform_log cp))
         = (if present then Ok else Failed)).
Proof.
  split.
  - intros inp out s success message s' H.
    apply run_main_spec in H as (cp & Hcp & -> & _). exists cp. split; [done|].
    rewrite andb_true_iff, Z.eqb_eq. done.
  - intros ins res i u m s ext s1 cp w2 present Hext Hd Hcp Hrc Hex.
    rewrite loop_body_cases, Hext, Hd, (run_main_returns env _ _ _ _ _ Hcp).
    rewrite Hrc, Hex. simpl. by destruct present.
Qed.

Lemma transform_success_iff_witness :
    (loop_body Reference.lib Reference.env2 "out/inputs" "out/results" 1
       "https://example.com/a.jpg" (mkManifest "8" 2 0 [])
       (mkSys Reference.world1 [])).1
    = Return (append_item
                (transformed_item 1 "https://example.com/a.jpg"
                   "out/inputs/input_1.jpg" "out/results/output_1.png" false "")
                (mkManifest "8" 2 0 []))
    ∧ item_status (transformed_item 1 "https://example.com/a.jpg"
                     "out/inputs/input_1.jpg" "out/results/output_1.png" false "")
      = Failed.
Proof.
  apply (proj2 (transform_success_iff Reference.lib Reference.env2)
           "out/inputs" "out/results" 1 "https://example.com/a.jpg"
           (mkManifest "8" 2 0 []) (mkSys Reference.world1 []) ".jpg"
           (download_image Reference.env2 "https://example.com/a.jpg"
              "out/inputs/input_1.jpg" (mkSys Reference.world1 [])).2
           (mkCompleted 0 "" "")
           (Reference.put_file "out/inputs/input_1.jpg" "JPEGDATA" Reference.world1)
           false).
  - vm_compute. reflexivity.
  - vm_compute. reflexivity.
  - vm_compute. reflexivity.
  - reflexivity.
  - vm_compute. reflexivity.
Defined.

(** C2. An exception raised while an item is processed is caught in the
    iteration, be it raised by extension inference, by the fetch or by the
    transform invocation: the iteration returns, the entry it appends has
    status [failed] and the text of the exception as log, and the loop
    goes on with the next reference.  A fetch that times out leaves a [failed]
    entry with a log that is not empty.  Once the preliminary calls have
    returned, the run ends by handing to [write_text] a manifest that has
    [total_images] entries, one per reference. *)
Theorem item_exceptions_are_recorded
        (lib : Lib) {W Resp : Type} (env : Env W Resp) (ins res : string) :
  (∀ i u m (s : Sys W) e f',
     try_body lib env ins res i u
       (mkFrame (mkItem i u Skipped None None None) m s) = (Raise e, f') →
     loop_body lib env ins res i u m s
     = (Return (append_item (failed_item i u e) m), f_sys f'))
  ∧ (∀ i u m (s : Sys W) e s1,
       (infer_extension lib u None = Raise e ∧ s1 = s)
       ∨ (∃ ext, infer_extension lib u None = Return ext
                 ∧ download_image env u (input_path_of lib ins i ext) s
                   = (Raise e, s1))
       ∨ (∃ ext s0, infer_extension lib u None = Return ext
                    ∧ download_image env u (input_path_of lib ins i ext) s
                      = (Return tt, s0)
                    ∧ run_main env (input_path_of lib ins i ext)
                        (output_path_of lib res i) s0 = (Raise e, s1)) →
       loop_body lib env ins res i u m s
       = (Return (append_item (failed_item i u e) m), s1))
  ∧ (∀ i u m (s : Sys W),
       ∃ it s', loop_body lib env ins res i u m s
                = (Return (mkManifest (issue_number m) (total_images m)
                             (processed_images m + count_ok [it])
                             (items m ++ [it])), s')
                ∧ index it = i ∧ url it = u)
  ∧ (∀ i l1 u l2 m (s : Sys W),
       for_each lib env ins res i (l1 ++ u :: l2) m s
       = bind (for_each lib env ins res i l1 m)
           (λ m1, bind (loop_body lib env ins res (i + Z.of_nat (length l1)) u m1)
                    (for_each lib env ins res (i + Z.of_nat (length l1) + 1) l2)) s)
  ∧ (∀ i u m (s : Sys W) ext e s1,
       is_timeout e →
       infer_extension lib u None = Return ext →
       download_image env u (input_path_of lib ins i ext) s = (Raise e, s1) →
       loop_body lib env ins res i u m s
       = (Return (append_item (mkItem i u Failed None None (Some (exc_str e))) m), s1)
       ∧ exc_str e ≠ EmptyString)
  ∧ (∀ args w body w1 urls w2 w3 r s',
       read_text env (body_path lib args) w = (Return body, w1) →
       resolved lib args body urls →
       mkdir env (inputs_dir_of lib args) w1 = (Return tt, w2) →
       mkdir env (results_dir_of lib args) w2 = (Return tt, w3) →
       main lib env args (mkSys w []) = (r, s') →
       ∃ m, last (trace s') = Some (EvWriteText (manifest_path lib args) m)
            ∧ Z.of_nat (length (items m)) = total_images m
            ∧ length (items m) = length urls).
Proof.
  split; [|split; [|split; [|split; [|split]]]].
  - intros i u m s e f'. apply loop_body_catches.
  - intros i u m s e s1 [[Hext ->]|[(ext & Hext & Hd)|(ext & s0 & Hext & Hd & Hr)]];
      rewrite loop_body_cases, Hext; [done| |]; rewrite Hd; [done|].
    by rewrite Hr.
  - intros i u m s.
    destruct (loop_body_spec lib env ins res i u m s) as (it & s' & H & (Hi & Hu & _) & _).
    by exists it, s'.
  - intros i l1 u l2 m s. by rewrite for_each_app.
  - intros i u m s ext e s1 Ht Hext Hd. split; [|by apply is_timeout_message].
    by rewrite loop_body_cases, Hext, Hd.
  - intros args w body w1 urls w2 w3 r s' Hread Hres Hm1 Hm2 Hrun.
    apply main_shape in Hrun.
    destruct (shape_reaches_write lib env args w body w1 urls w2 w3 r s'
                Hread Hres Hm1 Hm2 Hrun) as (its & Hent & Hlast).
    exists (manifest_of args urls its). simpl.
    rewrite (entries_length _ _ _ Hent). by repeat split.
Qed.

Lemma item_exceptions_are_recorded_witness :
  loop_body Reference.lib Reference.env1 "out/inputs" "out/results" 2
    "https://example.com/slow.png" (mkManifest "7" 3 1 []) (mkSys Reference.world1 [])
  = (Return (append_item
               (mkItem 2 "https://example.com/slow.png" Failed None None
                  (Some "<urlopen error timed out>"))
               (mkManifest "7" 3 1 [])),
     mkSys Reference.world1 [EvUrlopen "https://example.com/slow.png"])
  ∧ "<urlopen error timed out>" ≠ EmptyString.
Proof.
  apply (proj1 (proj2 (proj2 (proj2 (proj2
           (item_exceptions_are_recorded Reference.lib Reference.env1
              "out/inputs" "out/results")))))
           2 "https://example.com/slow.png" (mkManifest "7" 3 1 [])
           (mkSys Reference.world1 []) ".png" (URLError socket_timeout)).
  - right. reflexivity.
  - vm_compute. reflexivity.
  - vm_compute. reflexivity.
Defined.

(** C5. The list the Extractor returns has no duplicates; it is the
    Markdown matches followed by the HTML matches with every URL kept at
    its first occurrence only, so the Markdown URLs come first in their
    own first-seen order and an HTML URL appears only when no Markdown
    match gave it.  A text with the same URL in both forms gives that URL
    once. *)
Theorem extract_image_urls_dedup :
  (∀ body,
     NoDup (extract_image_urls body)
     ∧ extract_image_urls body
       = first_seen (Re.findall markdown_pattern body ++ Re.findall html_pattern body)
     ∧ extract_image_urls body
       = first_seen (Re.findall markdown_pattern body)
         ++ filter (λ u, u ∉ Re.findall markdown_pattern body)
              (first_seen (Re.findall html_pattern body)))
  ∧ extract_image_urls
      "![img](https://example.com/a.jpg) <img src='https://example.com/a.jpg'>"
    = ["https://example.com/a.jpg"].
Proof.
  split; [|by vm_compute].
  intros body. rewrite extract_image_urls_first_seen. split; [|split].
  - apply NoDup_first_seen.
  - done.
  - apply first_seen_app.
Qed.




(** C6. Extension inference decides in this order, for every URL that
    [urlparse] accepts and every optional content-type: (a) when the
    suffix of the URL path, in lower case, is one of the recognized
    extensions, that is the result; (b) otherwise, when a content-type is
    given and maps to a recognized extension, that one is; (c) otherwise
    the result is [.png].  When [urlparse] raises there is no path, and
    the exception is the outcome. *)
Theorem infer_extension_order (lib : Lib) (url : string) (content_type : option string) :
  (∀ e, urlparse_path lib url = Raise e →
        infer_extension lib url content_type = Raise e)
  ∧ ∀ p, urlparse_path lib url = Return p →
      (recognized (Str.lower (path_suffix lib p)) →
       infer_extension lib url content_type = Return (Str.lower (path_suffix lib p)))
      ∧ (¬ recognized (Str.lower (path_suffix lib p)) →
         ∀ ext, maps_to lib content_type ext →
                infer_extension lib url content_type = Return ext)
      ∧ (¬ recognized (Str.lower (path_suffix lib p)) →
         (∀ ext, ¬ maps_to lib content_type ext) →
         infer_extension lib url content_type = Return ".png").
Proof.
  assert (∀ x, x ∈ IMAGE_EXTS ↔ recognized x) as Hrec.
  { intros x. unfold IMAGE_EXTS, recognized. set_solver. }
  unfold infer_extension. split.
  - by intros e ->.
  - intros p ->. split; [|split].
    + intros Hs. apply Hrec in Hs. by rewrite decide_True.
    + intros Hs ext (c & g & -> & Hc & Hg & -> & Hext).
      rewrite decide_False by by rewrite Hrec.
      destruct c as [|a c]; [done|]. fold (media_type (String a c)). rewrite Hg.
      destruct g as [|b g]; [by apply Hrec in Hext|].
      apply Hrec in Hext. by rewrite decide_True.
    + intros Hs Hno. rewrite decide_False by by rewrite Hrec.
      destruct content_type as [[|a c]|]; [done| |done].
      fold (media_type (String a c)).
      destruct (guess_extension lib (media_type (String a c))) as [[|b g]|] eqn:Hg;
        [done| |done].
      destruct (decide (Str.lower (String b g) ∈ IMAGE_EXTS)) as [Hin|]; [|done].
      exfalso. apply (Hno (Str.lower (String b g))).
      exists (String a c), (String b g). repeat split; try done. by apply Hrec.
Qed.

Lemma infer_extension_order_witness :
  infer_extension Reference.lib "https://example.com/x/a.JPG?size=2" None
  = Return ".jpg"
  ∧ infer_extension Reference.lib "https://example.com/download"
      (Some "image/jpeg; q=1") = Return ".jpg"
  ∧ infer_extension Reference.lib "https://example.com/download" None
    = Return ".png".
Proof.
  split; [|split].
  - apply (proj1 (proj2 (infer_extension_order Reference.lib
             "https://example.com/x/a.JPG?size=2" None) "/x/a.JPG" eq_refl)).
    apply (list_elem_of_lookup_2 _ 1%nat). vm_compute. reflexivity.
  - apply (proj1 (proj2 (proj2 (infer_extension_order Reference.lib
             "https://example.com/download" (Some "image/jpeg; q=1"))
             "/download" eq_refl))).
    + unfold recognized. apply (proj1 (bool_decide_eq_false _)).
      vm_compute. reflexivity.
    + exists "image/jpeg; q=1", ".jpg". repeat split; try done.
      apply (list_elem_of_lookup_2 _ 1%nat). reflexivity.
  - apply (proj2 (proj2 (proj2 (infer_extension_order Reference.lib
             "https://example.com/download" None) "/download" eq_refl))).
    + unfold recognized. apply (proj1 (bool_decide_eq_false _)).
      vm_compute. reflexivity.
    + by intros ext (c & g & [=] & _).
Defined.

(** Extension inference does not return for every URL: an address in
    brackets that is not closed makes [urlparse] raise, and
    [infer_extension] with it, although the text ends in [.jpg]. *)
Lemma infer_extension_order_counterexample :
  infer_extension Reference.lib "http://[::1/a.jpg" None
  = Raise (Exception "ValueError" "Invalid IPv6 URL")
  ∧ ¬ (∀ url content_type,
         ∃ ext, infer_extension Reference.lib url content_type = Return ext).
Proof.
  split; [by vm_compute|].
  intros H. destruct (H "http://[::1/a.jpg" None) as [ext Hext].
  vm_compute in Hext. discriminate Hext.
Qed.

(** * Further properties *)

(** ** Deduplication, continued *)

Lemma filter_id_on (P : string → Prop) `{!∀ x, Decision (P x)} (l : list string) :
  (∀ y, y ∈ l → P y) → filter P l = l.
Proof.
  induction l as [|x l IH]; intros Hall; [done|].
  rewrite filter_cons_True by (apply Hall; left). f_equal. apply IH.
  intros y Hy. apply Hall. by right.
Qed.

Lemma first_seen_NoDup (l : list string) : NoDup l → first_seen l = l.
Proof.
  induction 1 as [|x l Hx _ IH]; [done|]. simpl. rewrite IH. f_equal.
  apply filter_id_on. by intros y Hy ->.
Qed.

Lemma dedup_loop_fresh (l : list string) : dedup_loop l ∅ [] = first_seen l.
Proof.
  rewrite dedup_loop_first_seen. simpl. apply filter_all. intros y. apply not_elem_of_empty.
Qed.

Lemma first_seen_length (l : list string) : (length (first_seen l) ≤ length l)%nat.
Proof.
  induction l as [|x l IH]; simpl; [lia|].
  pose proof (length_filter (λ y, y ≠ x) (first_seen l)). lia.
Qed.

(** ** Blanks *)

Lemma lstrip_head s : 
  Str.lstrip s = EmptyString ∨ ∃ c t, Str.lstrip s = String c t ∧ Str.isspace c = false.
Proof.
  induction s as [|c s IH]; simpl; [by left|].
  destruct (Str.isspace c) eqn:Hc; [done|]. right. by exists c, s.
Qed.

Lemma rstrip_idemp s : Str.rstrip (Str.rstrip s) = Str.rstrip s.
Proof.
  induction s as [|c s IH]; [done|]. simpl.
  destruct (Str.rstrip s) as [|d r] eqn:Hr.
  - destruct (Str.isspace c) eqn:Hc; [done|]. simpl. by rewrite Hc.
  - simpl. simpl in IH. by rewrite IH.
Qed.

Lemma rstrip_keeps_head c t :
  Str.isspace c = false → ∃ r, Str.rstrip (String c t) = String c r.
Proof.
  intros Hc. simpl. destruct (Str.rstrip t) as [|d r]; [|by eexists].
  rewrite Hc. by eexists.
Qed.

Lemma strip_trimmed s : trimmed (Str.strip s).
Proof.
  unfold trimmed, Str.strip. split; [|apply rstrip_idemp].
  destruct (lstrip_head s) as [->|(c & t & -> & Hc)]; [done|].
  destruct (rstrip_keeps_head c t Hc) as (r & ->). simpl. by rewrite Hc.
Qed.

Lemma rstrip_blank s : all_chars Str.isspace s = true → Str.rstrip s = EmptyString.
Proof.
  induction s as [|c s IH]; [done|]. simpl.
  intros [Hc Hs]%andb_true_iff. by rewrite (IH Hs), Hc.
Qed.

Lemma lstrip_blank s : all_chars Str.isspace s = true → Str.lstrip s = EmptyString.
Proof.
  induction s as [|c s IH]; [done|]. simpl.
  intros [Hc Hs]%andb_true_iff. by rewrite Hc, (IH Hs).
Qed.

(** ** The characters of a match *)

Lemma all_chars_append f a b :
  all_chars f (a +:+ b) = all_chars f a && all_chars f b.
Proof.
  induction a as [|x a IH]; [done|].
  change (String x a +:+ b) with (String x (a +:+ b)). simpl.
  by rewrite IH, andb_assoc.
Qed.

Lemma all_accepted_chars k f t :
  (∀ x, Re.accepts k x = true → f x = true) →
  all_accepted k t → all_chars f t = true.
Proof.
  intros Hk. induction t as [|x t IH]; [done|]. simpl.
  intros [Hx Ht]. by rewrite (Hk x Hx), (IH Ht).
Qed.

(** A character that a literal of the scheme accepts is a letter, a colon
    or a slash. *)
Lemma scheme_char_plain c x :
  c ∈ list_ascii_of_string "htps:/" →
  Re.accepts (Re.Lit c) x = true →
  markdown_url_char x = true ∧ html_url_char x = true.
Proof.
  intros Hc. simpl in Hc.
  repeat (apply elem_of_cons in Hc as [->|Hc]); [..|by apply elem_of_nil in Hc];
    destruct x as [[] [] [] [] [] [] [] []]; by vm_compute.
Qed.

(** The group of a pattern: the scheme, then a repetition of one class. *)
Lemma group_characters k f g :
  (∀ x, Re.accepts k x = true → f x = true) →
  (∀ c x, c ∈ list_ascii_of_string "htps:/" →
          Re.accepts (Re.Lit c) x = true → f x = true) →
  matches (scheme_items ++ [Re.Plus k]) g →
  all_chars f g = true ∧ (8 ≤ String.length g)%nat.
Proof.
  intros Hk Hs.
  assert (∀ c, c ∈ list_ascii_of_string "htps:/" → ∀ x,
               Re.accepts (Re.Lit c) x = true → f x = true) as Hs' by eauto.
  pose proof (Hs' "h"%char ltac:(set_solver)) as Hh.
  pose proof (Hs' "t"%char ltac:(set_solver)) as Ht.
  pose proof (Hs' "p"%char ltac:(set_solver)) as Hp.
  pose proof (Hs' "s"%char ltac:(set_solver)) as Hss.
  pose proof (Hs' ":"%char ltac:(set_solver)) as Hco.
  pose proof (Hs' "/"%char ltac:(set_solver)) as Hsl.
  clear Hs Hs'.
  simpl. intros (x1 & t1 & -> & H1 & x2 & t2 & -> & H2 & x3 & t3 & -> & H3
                 & x4 & t4 & -> & H4 & H).
  assert (∀ t, (∃ y1 u1, t = String y1 u1 ∧ Re.accepts (Re.Lit ":") y1 = true
                 ∧ ∃ y2 u2, u1 = String y2 u2 ∧ Re.accepts (Re.Lit "/") y2 = true
                 ∧ ∃ y3 u3, u2 = String y3 u3 ∧ Re.accepts (Re.Lit "/") y3 = true
                 ∧ ∃ x r1 r2, u3 = String x (r1 +:+ r2) ∧ Re.accepts k x = true
                              ∧ all_accepted k r1 ∧ r2 = EmptyString) →
               all_chars f t = true ∧ (4 ≤ String.length t)%nat) as Htail.
  { intros t (y1 & u1 & -> & G1 & y2 & u2 & -> & G2 & y3 & u3 & -> & G3
              & x & r1 & r2 & -> & Gx & Gr & ->).
    simpl. rewrite (Hco _ G1), (Hsl _ G2), (Hsl _ G3), (Hk _ Gx). simpl.
    rewrite all_chars_append, (all_accepted_chars k f r1 Hk Gr). split; [done|lia]. }
  simpl. rewrite (Hh _ H1), (Ht _ H2), (Ht _ H3), (Hp _ H4). simpl.
  destruct H as [H|(x5 & t5 & -> & H5 & H)].
  - destruct (Htail _ H) as [-> ?]. split; [done|lia].
  - destruct (Htail _ H) as [Ha ?]. simpl. rewrite (Hss _ H5), Ha. split; [done|lia].
Qed.

Lemma findall_group_characters p k f body u :
  Re.group p = scheme_items ++ [Re.Plus k] →
  (∀ x, Re.accepts k x = true → f x = true) →
  (∀ c x, c ∈ list_ascii_of_string "htps:/" →
          Re.accepts (Re.Lit c) x = true → f x = true) →
  u ∈ Re.findall p body →
  all_chars f u = true ∧ (8 ≤ String.length u)%nat.
Proof.
  intros Hp Hk Hs H. apply findall_from_sound in H as (pre & s' & rest & -> & H).
  apply match_at_sound in H as (t0 & t2 & -> & _ & Hg & _).
  rewrite Hp in Hg. by eapply group_characters.
Qed.

Lemma markdown_url_characters body u :
  u ∈ Re.findall markdown_pattern body →
  all_chars markdown_url_char u = true ∧ (8 ≤ String.length u)%nat.
Proof.
  apply findall_group_characters with (k := Re.NoneOfOrSpace [")"%char]); [done| |].
  - intros x. unfold markdown_url_char. simpl.
    rewrite orb_false_r, andb_comm. done.
  - intros c x Hc Hx. by apply (scheme_char_plain c x).
Qed.

Lemma html_url_characters body u :
  u ∈ Re.findall html_pattern body →
  all_chars html_url_char u = true ∧ (8 ≤ String.length u)%nat.
Proof.
  apply findall_group_characters with (k := Re.NoneOf quotes); [done|done|].
  intros c x Hc Hx. by apply (scheme_char_plain c x).
Qed.

(** ** When the matcher succeeds *)

Section Greedy.
Context {R : Type}.
Implicit Types (p : list Re.item) (s t : string) (k : string → string → option R).

Lemma run_one c p x s k :
  Re.accepts c x = true →
  Re.run (Re.One c :: p) (String x s) k = Re.run p s (λ t r, k (String x t) r).
Proof. intros H. simpl. by rewrite H. Qed.

Lemma run_opt_skip c p s k :
  stops c s → Re.run (Re.Opt c :: p) s k = Re.run p s k.
Proof. destruct s as [|x s]; simpl; [done|]. by intros ->. Qed.

Lemma run_opt_take c p x s k v :
  Re.accepts c x = true →
  Re.run p s (λ t r, k (String x t) r) = Some v →
  Re.run (Re.Opt c :: p) (String x s) k = Some v.
Proof. intros H Hv. simpl. by rewrite H, Hv. Qed.

(** A greedy repetition takes every character that passes the test; when
    the rest of the pattern then succeeds, that is the match. *)
Lemma run_star_greedy c p t s k v :
  all_accepted c t → stops c s →
  Re.run p s (λ t' r, k (t +:+ t') r) = Some v →
  Re.run (Re.Star c :: p) (t +:+ s) k = Some v.
Proof.
  revert k. induction t as [|x t IH]; intros k Ht Hs Hv.
  - change (EmptyString +:+ s) with s. destruct s as [|y s].
    + exact Hv.
    + rewrite run_star_cons. simpl in Hs. by rewrite Hs.
  - destruct Ht as [Hx Ht]. change (String x t +:+ s) with (String x (t +:+ s)).
    rewrite run_star_cons, Hx.
    by rewrite (IH (λ t' r, k (String x t') r) Ht Hs Hv).
Qed.

Lemma run_plus_greedy c p x t s k v :
  Re.accepts c x = true → all_accepted c t → stops c s →
  Re.run p s (λ t' r, k (String x (t +:+ t')) r) = Some v →
  Re.run (Re.Plus c :: p) (String x (t +:+ s)) k = Some v.
Proof.
  intros Hx Ht Hs Hv. rewrite run_plus_cons, Hx.
  by apply (run_star_greedy c p t s (λ t' r, k (String x t') r)).
Qed.
End Greedy.

Lemma append_empty_r (a : string) : a +:+ EmptyString = a.
Proof. induction a as [|x a IH]; [done|]. exact (f_equal (String x) IH). Qed.

Lemma lower_eq_accepts c x :
  Str.lower_char x = Str.lower_char c → Re.accepts (Re.Lit c) x = true.
Proof. intros H. simpl. rewrite H. apply Ascii.eqb_refl. Qed.

(** The scheme accepts [http://] and [https://] in any letter case. *)
Lemma run_scheme {R} p sch s (k : string → string → option R) v :
  Str.lower sch = "http://" ∨ Str.lower sch = "https://" →
  Re.run p s (λ t r, k (sch +:+ t) r) = Some v →
  Re.run (scheme_items ++ p) (sch +:+ s) k = Some v.
Proof.
  intros [H|H] Hv.
  - destruct sch as [|x1 [|x2 [|x3 [|x4 [|x5 [|x6 [|x7 [|]]]]]]]]; try done.
    injection H as H1 H2 H3 H4 H5 H6 H7.
    change (Re.run (Re.One (Re.Lit "h") :: Re.One (Re.Lit "t") :: Re.One (Re.Lit "t")
                      :: Re.One (Re.Lit "p") :: Re.Opt (Re.Lit "s")
                      :: Re.One (Re.Lit ":") :: Re.One (Re.Lit "/")
                      :: Re.One (Re.Lit "/") :: p)
              (String x1 (String x2 (String x3 (String x4 (String x5
                 (String x6 (String x7 s))))))) k = Some v).
    rewrite !run_one by by apply lower_eq_accepts.
    rewrite run_opt_skip by (simpl; by rewrite H5).
    rewrite !run_one by by apply lower_eq_accepts. exact Hv.
  - destruct sch as [|x1 [|x2 [|x3 [|x4 [|x5 [|x6 [|x7 [|x8 [|]]]]]]]]]; try done.
    injection H as H1 H2 H3 H4 H5 H6 H7 H8.
    change (Re.run (Re.One (Re.Lit "h") :: Re.One (Re.Lit "t") :: Re.One (Re.Lit "t")
                      :: Re.One (Re.Lit "p") :: Re.Opt (Re.Lit "s")
                      :: Re.One (Re.Lit ":") :: Re.One (Re.Lit "/")
                      :: Re.One (Re.Lit "/") :: p)
              (String x1 (String x2 (String x3 (String x4 (String x5
                 (String x6 (String x7 (String x8 s)))))))) k = Some v).
    rewrite !run_one by by apply lower_eq_accepts.
    apply run_opt_take; [by apply lower_eq_accepts|].
    rewrite !run_one by by apply lower_eq_accepts. exact Hv.
Qed.

Lemma accepts_bang x : Re.accepts (Re.Lit "!") x = true → x = "!"%char.
Proof. destruct x as [[] [] [] [] [] [] [] []]; by vm_compute. Qed.

(** A Markdown image at the start of a text is matched, and the match
    ends after its closing parenthesis. *)
Lemma match_at_markdown_image alt sch x rest post :
  all_accepted (Re.NoneOf ["]"%char]) alt →
  Str.lower sch = "http://" ∨ Str.lower sch = "https://" →
  all_chars markdown_url_char (String x rest) = true →
  Re.match_at markdown_pattern
    (markdown_image alt (sch +:+ String x rest) +:+ post)
  = Some (sch +:+ String x rest, post).
Proof.
  intros Halt Hsch Hrest. unfold Re.match_at, markdown_image.
  assert (∀ c, markdown_url_char c = true →
               Re.accepts (Re.NoneOfOrSpace [")"%char]) c = true) as Hcls.
  { intros c. unfold markdown_url_char. simpl. by rewrite orb_false_r, andb_comm. }
  assert (all_accepted (Re.NoneOfOrSpace [")"%char]) rest
          ∧ Re.accepts (Re.NoneOfOrSpace [")"%char]) x = true) as [Hr Hx].
  { simpl in Hrest. apply andb_true_iff in Hrest as [Hx Hrest]. split; [|by apply Hcls].
    clear Hx. induction rest as [|y rest IH]; [done|]. simpl in *.
    apply andb_true_iff in Hrest as [Hy Hrest]. split; [by apply Hcls|by apply IH]. }
  change (Re.before markdown_pattern)
    with (Re.One (Re.Lit "!") :: Re.One (Re.Lit "[")
            :: Re.Star (Re.NoneOf ["]"%char])
            :: [Re.One (Re.Lit "]"); Re.One (Re.Lit "(")]).
  change (("![" +:+ alt +:+ "](" +:+ (sch +:+ String x rest) +:+ ")") +:+ post)
    with (String "!" (String "[" ((alt +:+ "](" +:+ (sch +:+ String x rest) +:+ ")") +:+ post))).
  rewrite !run_one by by apply lower_eq_accepts.
  rewrite (append_assoc alt).
  apply run_star_greedy; [done|done|].
  change (("](" +:+ (sch +:+ String x rest) +:+ ")") +:+ post)
    with (String "]" (String "(" (((sch +:+ String x rest) +:+ ")") +:+ post))).
  rewrite !run_one by by apply lower_eq_accepts.
  cbn [Re.run Re.group Re.after markdown_pattern].
  rewrite (append_assoc (sch +:+ String x rest)), (append_assoc sch).
  apply run_scheme; [done|].
  change (String x rest +:+ ")" +:+ post) with (String x (rest +:+ String ")" post)).
  apply run_plus_greedy; [done|done|done|].
  simpl. by rewrite append_empty_r.
Qed.

Lemma match_at_markdown_no_bang x s :
  x ≠ "!"%char → Re.match_at markdown_pattern (String x s) = None.
Proof.
  intros Hx. unfold Re.match_at. simpl.
  destruct (Ascii.eqb (Str.lower_char x) (Str.lower_char "!")) eqn:E; [|done].
  by apply (accepts_bang x) in E.
Qed.

Lemma findall_markdown_skip pre s :
  all_accepted (Re.NoneOf ["!"%char]) pre →
  Re.findall markdown_pattern (pre +:+ s) = Re.findall markdown_pattern s.
Proof.
  induction pre as [|x pre IH]; [done|]. intros [Hx Hpre].
  change (String x pre +:+ s) with (String x (pre +:+ s)).
  rewrite findall_miss; [by apply IH|].
  apply match_at_markdown_no_bang. intros ->. done.
Qed.

(** ** The worker, continued *)

Section WorkerMore.
Variable lib : Lib.
Context {W Resp : Type}.
Variable env : Env W Resp.

Implicit Types (s : Sys W) (m : Manifest) (e : exn) (u : string) (i : Z).

Ltac step :=
  unfold bind, emit, modify, sys_call, finally, raise, ret, of_result,
    on_sys, on_item, on_manifest, try_except in *; simpl in *.

(** The calls of a fetch: none when [Request(url)] raises; otherwise the
    request, then the write when a body that is not empty was read. A
    fetch that returns has written. *)
Lemma download_image_events u p s r s' :
  download_image env u p s = (r, s') →
  match request env u with
  | Raise e => trace s' = trace s ∧ r = Raise e
  | Return _ =>
      match urlopen env u (world s) with
      | (Raise e, _) => trace s' = trace s ++ [EvUrlopen u] ∧ r = Raise e
      | (Return resp, w1) =>
          match response_read env resp w1 with
          | (Raise e, _) => trace s' = trace s ++ [EvUrlopen u] ∧ r = Raise e
          | (Return EmptyString, _) =>
              trace s' = trace s ++ [EvUrlopen u] ∧ ∃ e, r = Raise e
          | (Return data, w2) =>
              trace s' = trace s ++ [EvUrlopen u; EvWriteBytes p]
              ∧ r = (write_bytes env p data w2).1
          end
      end
  end.
Proof.
  unfold download_image. step.
  destruct (request env u) as [[]|e0]; simpl.
  2:{ by intros [= <- <-]. }
  destruct (urlopen env u (world s)) as [[resp|e] w1]; simpl.
  - destruct (response_read env resp w1) as [[[|c data]|e] w2]; simpl.
    + intros [= <- <-]. eauto.
    + destruct (write_bytes env p (String c data) w2) as [r' w3]; simpl.
      intros [= <- <-]. simpl. by rewrite <- app_assoc.
    + by intros [= <- <-].
  - by intros [= <- <-].
Qed.

Lemma run_main_events a b s r s' :
  run_main env a b s = (r, s') →
  trace s' = trace s ++ [EvSubprocess [sys_executable env; "main.py"; a; b]].
Proof.
  unfold run_main. step.
  destruct (subprocess_run env _ (world s)) as [[cp|e] w1]; simpl;
    by intros [= <- <-].
Qed.

Lemma loop_body_events ins res i u m s r s' :
  loop_body lib env ins res i u m s = (r, s') →
  trace s' = trace s ++ calls_of lib env ins res i u (world s).
Proof.
  rewrite loop_body_cases. unfold calls_of.
  destruct (infer_extension lib u None) as [ext|e].
  2:{ intros [= <- <-]. by rewrite app_nil_r. }
  destruct (download_image env u _ s) as [rd s1] eqn:Hd.
  apply download_image_events in Hd.
  destruct (request env u) as [[]|e0].
  2:{ destruct Hd as [Hd ->]. intros [= <- <-]. by rewrite app_nil_r. }
  destruct (urlopen env u (world s)) as [[resp|e] w1].
  2:{ destruct Hd as [Hd ->]. by intros [= <- <-]. }
  destruct (response_read env resp w1) as [[[|c data]|e] w2].
  - destruct Hd as [Hd [e ->]]. by intros [= <- <-].
  - destruct Hd as [Hd ->].
    destruct (write_bytes env _ (String c data) w2) as [[[]|e] w3]; simpl.
    2:{ by intros [= <- <-]. }
    destruct (run_main env _ _ s1) as [[[success message]|e] s2] eqn:Hr;
      intros [= <- <-]; apply run_main_events in Hr;
      by rewrite Hr, Hd, <- app_assoc.
  - destruct Hd as [Hd ->]. by intros [= <- <-].
Qed.

(** The fetches among the calls of an iteration: the URL, when extension
    inference and [Request(url)] both return. *)
Lemma fetched_calls_of ins res i u (w : W) :
  fetched (calls_of lib env ins res i u w)
  = if infers lib u && requests env u then [u] else [].
Proof.
  unfold calls_of, infers, requests.
  destruct (infer_extension lib u None) as [ext|e]; [|done].
  destruct (request env u) as [[]|e0]; [|done].
  destruct (urlopen env u w) as [[resp|e] w1]; [|done].
  destruct (response_read env resp w1) as [[[|c data]|e] w2]; [done| |done].
  by destruct (write_bytes env _ (String c data) w2) as [[[]|e] w3].
Qed.

Lemma fetched_app evs1 evs2 : fetched (evs1 ++ evs2) = fetched evs1 ++ fetched evs2.
Proof. apply omap_app. Qed.

(** The fetches of the loop are those of the references for which
    extension inference and [Request(url)] both return, one each, in
    order. *)
Lemma for_each_fetched ins res urls : ∀ i m s r s',
  for_each lib env ins res i urls m s = (r, s') →
  ∃ evs, trace s' = trace s ++ evs
         ∧ fetched evs
           = filter (λ u, infers lib u = true ∧ requests env u = true) urls.
Proof.
  induction urls as [|u urls IH]; intros i m s r s'; simpl.
  - intros [= <- <-]. exists []. by rewrite app_nil_r.
  - unfold bind.
    destruct (loop_body lib env ins res i u m s) as [[m1|e] s1] eqn:Hb.
    2:{ destruct (loop_body_spec lib env ins res i u m s) as (? & ? & Heq & _).
        by rewrite Heq in Hb. }
    intros Hrest. apply loop_body_events in Hb.
    apply IH in Hrest as (evs2 & H2 & Hf).
    eexists. rewrite H2, Hb, <- app_assoc. split; [done|].
    rewrite fetched_app, Hf, filter_cons, fetched_calls_of.
    by destruct (infers lib u), (requests env u); case_decide; naive_solver.
Qed.

Lemma loop_body_item_fields ins res i u m s m' s' :
  loop_body lib env ins res i u m s = (Return m', s') →
  ∃ it, items m' = items m ++ [it] ∧ item_fields lib ins res it.
Proof.
  rewrite loop_body_cases. unfold item_fields.
  destruct (infer_extension lib u None) as [ext|e] eqn:Hext.
  2:{ intros [= <- <-]. eexists. split; [done|]. simpl. eauto 10. }
  destruct (download_image env u _ s) as [[[]|e] s1].
  2:{ intros [= <- <-]. eexists. split; [done|]. simpl. eauto 10. }
  destruct (run_main env _ _ s1) as [[[success message]|e] s2]; intros [= <- <-].
  - eexists. split; [by destruct success|]. simpl. split; [eauto|].
    right. exists ext. by rewrite Hext.
  - eexists. split; [done|]. simpl. eauto 10.
Qed.

Lemma for_each_item_fields ins res urls : ∀ i m s m' s',
  for_each lib env ins res i urls m s = (Return m', s') →
  ∃ its, items m' = items m ++ its ∧ Forall (item_fields lib ins res) its.
Proof.
  induction urls as [|u urls IH]; intros i m s m' s'; simpl.
  - intros [= <- <-]. exists []. by rewrite app_nil_r.
  - unfold bind.
    destruct (loop_body lib env ins res i u m s) as [[m1|e] s1] eqn:Hb; [|done].
    intros Hrest. apply loop_body_item_fields in Hb as (it & H1 & Hit).
    apply IH in Hrest as (its & H2 & Hits).
    exists (it :: its). rewrite H2, H1, <- app_assoc. by split; [|constructor].
Qed.

Lemma resolve_urls_resolved args body urls s :
  resolved lib args body urls →
  resolve_urls lib args body s
  = (Return urls, mkSys (world s) (trace s ++ [resolve_event args body])).
Proof.
  unfold resolved, resolve_urls, resolve_event.
  destruct (urls_json args) as [|c doc]; step; by intros ->.
Qed.

(** The run, call by call. *)
Lemma main_eq args w :
  main lib env args (mkSys w []) =
  match read_text env (body_path lib args) w with
  | (Raise e, w1) => (Raise e, mkSys w1 [EvReadText (body_path lib args)])
  | (Return body, w1) =>
      match resolve_urls lib args body (mkSys w1 [EvReadText (body_path lib args)]) with
      | (Raise e, s1) => (Raise e, s1)
      | (Return urls, s1) =>
          match mkdir env (inputs_dir_of lib args) (world s1) with
          | (Raise e, w2) =>
              (Raise e, mkSys w2 (trace s1 ++ [EvMkdir (inputs_dir_of lib args)]))
          | (Return _, w2) =>
              match mkdir env (results_dir_of lib args) w2 with
              | (Raise e, w3) =>
                  (Raise e, mkSys w3 ((trace s1 ++ [EvMkdir (inputs_dir_of lib args)])
                                      ++ [EvMkdir (results_dir_of lib args)]))
              | (Return _, w3) =>
                  match for_each lib env (inputs_dir_of lib args) (results_dir_of lib args)
                          1 urls
                          (mkManifest (arg_issue_number args)
                             (Z.of_nat (length urls)) 0 [])
                          (mkSys w3 ((trace s1 ++ [EvMkdir (inputs_dir_of lib args)])
                                     ++ [EvMkdir (results_dir_of lib args)])) with
                  | (Raise e, s2) => (Raise e, s2)
                  | (Return m, s2) =>
                      let (r, w5) := write_text env (manifest_path lib args) m (world s2) in
                      (match r with Return _ => Return 0 | Raise e => Raise e end,
                       mkSys w5 (trace s2 ++ [EvWriteText (manifest_path lib args) m]))
                  end
              end
          end
      end
  end.
Proof.
  unfold main, body_path, inputs_dir_of, results_dir_of, manifest_path. step.
  destruct (read_text env _ w) as [[body|e] w1]; simpl; [|done].
  destruct (resolve_urls lib args body _) as [[urls|e] s1]; simpl; [|done].
  destruct (mkdir env _ (world s1)) as [[[]|e] w2]; simpl; [|done].
  destruct (mkdir env _ w2) as [[[]|e] w3]; simpl; [|done].
  destruct (for_each lib env _ _ 1 urls _ _) as [[m|e] s2]; simpl; [|done].
  destruct (write_text env _ m (world s2)) as [[[]|e] w5]; done.
Qed.
End WorkerMore.

Section RunMore.
Variable lib : Lib.
Context {W Resp : Type}.
Variable env : Env W Resp.

Lemma resolve_urls_trace args body (s s1 : Sys W) r :
  resolve_urls lib args body s = (r, s1) →
  world s1 = world s ∧ trace s1 = trace s ++ [resolve_event args body].
Proof.
  unfold resolve_urls, resolve_event.
  destruct (urls_json args) as [|c doc];
    unfold bind, emit, modify, ret; simpl; by intros [= <- <-].
Qed.

Lemma resolve_urls_returns args body (s s1 : Sys W) urls :
  resolve_urls lib args body s = (Return urls, s1) → resolved lib args body urls.
Proof.
  unfold resolve_urls, resolved.
  destruct (urls_json args) as [|c doc];
    unfold bind, emit, modify, ret; simpl; by intros [= <- <-].
Qed.

Lemma fetched_resolve_event args body : fetched [resolve_event args body] = [].
Proof. unfold resolve_event. by destruct (urls_json args). Qed.

(** A run that hands a manifest to [write_text] has gone through the
    loop: the manifest is what the loop returned, from a state whose
    trace is the four preliminary calls, and the write is the last call. *)
Lemma main_written_loop args w r s' p m :
  main lib env args (mkSys w []) = (r, s') →
  EvWriteText p m ∈ trace s' →
  ∃ body w1 urls w3 s2,
    read_text env (body_path lib args) w = (Return body, w1)
    ∧ resolved lib args body urls
    ∧ for_each lib env (inputs_dir_of lib args) (results_dir_of lib args) 1 urls
        (mkManifest (arg_issue_number args) (Z.of_nat (length urls)) 0 [])
        (mkSys w3 [EvReadText (body_path lib args); resolve_event args body;
                   EvMkdir (inputs_dir_of lib args);
                   EvMkdir (results_dir_of lib args)])
      = (Return m, s2)
    ∧ trace s' = trace s2 ++ [EvWriteText p m]
    ∧ p = manifest_path lib args.
Proof.
  pose proof (resolve_event_not_write args) as Hne.
  rewrite main_eq.
  destruct (read_text env _ w) as [[body|e] w1] eqn:Hread.
  2:{ intros [= <- <-] Hin. simpl in Hin. 
      apply list_elem_of_singleton in Hin. discriminate Hin. }
  destruct (resolve_urls lib args body _) as [[urls|e] s1] eqn:Hres.
  2:{ apply resolve_urls_trace in Hres as [_ Htr]. intros [= <- <-] Hin.
      rewrite Htr in Hin. simpl in Hin.
      repeat (apply elem_of_cons in Hin as [Hin|Hin];
              [by (discriminate Hin || (symmetry in Hin; by apply Hne in Hin))|]).
      by apply elem_of_nil in Hin. }
  pose proof (resolve_urls_returns _ _ _ _ _ Hres) as Hurls.
  apply resolve_urls_trace in Hres as [Hw Htr]. rewrite Htr, Hw. simpl.
  destruct (mkdir env _ w1) as [[[]|e] w2].
  2:{ intros [= <- <-] Hin. simpl in Hin.
      repeat (apply elem_of_cons in Hin as [Hin|Hin];
              [by (discriminate Hin || (symmetry in Hin; by apply Hne in Hin))|]).
      by apply elem_of_nil in Hin. }
  destruct (mkdir env _ w2) as [[[]|e] w3].
  2:{ intros [= <- <-] Hin. simpl in Hin.
      repeat (apply elem_of_cons in Hin as [Hin|Hin];
              [by (discriminate Hin || (symmetry in Hin; by apply Hne in Hin))|]).
      by apply elem_of_nil in Hin. }
  match goal with |- context [for_each _ _ ?a ?b ?c ?d ?m0 ?s0] =>
    destruct (for_each_spec lib env a b d c m0 s0)
      as (its & s2 & Heq & _ & evs & Hevs & Hitem) end.
  rewrite Heq. simpl in Hevs.
  destruct (write_text env _ _ (world s2)) as [r5 w5].
  intros [= <- <-] Hin. simpl in Hin. rewrite Hevs in Hin. simpl in Hin.
  repeat (apply elem_of_cons in Hin as [Hin|Hin];
          [by (discriminate Hin || (symmetry in Hin; by apply Hne in Hin))|]).
  apply elem_of_app in Hin as [Hin|Hin];
    [by apply (item_event_not_write evs p m Hitem) in Hin|].
  apply list_elem_of_singleton in Hin. injection Hin as -> ->.
  by exists body, w1, urls, w3, s2.
Qed.
End RunMore.

(** * Further properties of the script *)

(** X1. Whatever the URL and the content-type, an extension that
    [infer_extension] returns is one of [IMAGE_EXTS]. *)
Theorem infer_extension_recognized (lib : Lib) (u : string) (ct : option string)
        (ext : string) :
  infer_extension lib u ct = Return ext → ext ∈ IMAGE_EXTS.
Proof.
  assert (".png" ∈ IMAGE_EXTS) as Hpng by (unfold IMAGE_EXTS; set_solver).
  unfold infer_extension.
  destruct (urlparse_path lib u) as [p|e]; [|done].
  destruct (decide (Str.lower (path_suffix lib p) ∈ IMAGE_EXTS)) as [Hs|_];
    [by intros [= <-]|].
  destruct ct as [[|a c]|]; try by intros [= <-].
  destruct (guess_extension lib _) as [[|b g]|]; try by intros [= <-].
  destruct (decide (Str.lower (String b g) ∈ IMAGE_EXTS)) as [Hg|_];
    by intros [= <-].
Qed.

Lemma infer_extension_recognized_witness : ".jpg" ∈ IMAGE_EXTS.
Proof.
  apply (infer_extension_recognized Reference.lib
           "https://example.com/x/a.JPG?size=2" (Some "text/html") ".jpg").
  vm_compute. reflexivity.
Defined.

(** X2. The loop of [extract_image_urls] returns a list without
    duplicates unchanged, running it twice changes nothing more, and its
    result is never longer than its input. *)
Theorem dedup_loop_keeps_distinct :
  (∀ l, NoDup l → dedup_loop l ∅ [] = l)
  ∧ (∀ l, dedup_loop (dedup_loop l ∅ []) ∅ [] = dedup_loop l ∅ [])
  ∧ (∀ l, (length (dedup_loop l ∅ []) ≤ length l)%nat).
Proof.
  split; [|split].
  - intros l Hl. rewrite dedup_loop_fresh. by apply first_seen_NoDup.
  - intros l. rewrite !dedup_loop_fresh.
    apply first_seen_NoDup, NoDup_first_seen.
  - intros l. rewrite dedup_loop_fresh. apply first_seen_length.
Qed.

Lemma dedup_loop_keeps_distinct_witness :
  dedup_loop ["http://h/b.png"; "http://h/a.png"] ∅ []
  = ["http://h/b.png"; "http://h/a.png"].
Proof.
  apply (proj1 dedup_loop_keeps_distinct).
  apply (bool_decide_unpack _). vm_compute. reflexivity.
Defined.

(** X3. A Markdown image whose alt text has no closing bracket and whose
    target is [http://] or [https://] (in any letter case) followed by at
    least one character, none of them a blank or a closing parenthesis, is
    found when no exclamation mark precedes it: its target is the first
    match, the scan resumes after its closing parenthesis, and the target
    is among the extracted URLs. *)
Theorem markdown_image_is_extracted (pre alt sch : string) (x : ascii)
        (rest post : string) :
  all_accepted (Re.NoneOf ["!"%char]) pre →
  all_accepted (Re.NoneOf ["]"%char]) alt →
  Str.lower sch = "http://" ∨ Str.lower sch = "https://" →
  all_chars markdown_url_char (String x rest) = true →
  Re.findall markdown_pattern
    (pre +:+ markdown_image alt (sch +:+ String x rest) +:+ post)
  = (sch +:+ String x rest) :: Re.findall markdown_pattern post
  ∧ (sch +:+ String x rest)
    ∈ extract_image_urls
        (pre +:+ markdown_image alt (sch +:+ String x rest) +:+ post).
Proof.
  intros Hpre Halt Hsch Hrest.
  assert (Re.findall markdown_pattern
            (pre +:+ markdown_image alt (sch +:+ String x rest) +:+ post)
          = (sch +:+ String x rest) :: Re.findall markdown_pattern post) as Hfind.
  { rewrite findall_markdown_skip by done.
    apply findall_markdown_hit. by apply match_at_markdown_image. }
  split; [done|].
  rewrite extract_image_urls_first_seen, elem_of_first_seen, elem_of_app, Hfind.
  left. left.
Qed.

Lemma markdown_image_is_extracted_witness :
  Re.findall markdown_pattern
    ("see " +:+ markdown_image "a [b" ("HTTPS://" +:+ "h/a.png") +:+ " and more")
  = ("HTTPS://" +:+ "h/a.png") :: Re.findall markdown_pattern " and more"
  ∧ ("HTTPS://" +:+ "h/a.png")
    ∈ extract_image_urls
        ("see " +:+ markdown_image "a [b" ("HTTPS://" +:+ "h/a.png") +:+ " and more").
Proof.
  apply (markdown_image_is_extracted "see " "a [b" "HTTPS://" "h" "/a.png" " and more").
  - vm_compute. tauto.
  - vm_compute. tauto.
  - right. vm_compute. reflexivity.
  - vm_compute. reflexivity.
Defined.

(** X4. A URL matched in Markdown form contains no blank and no closing
    parenthesis; one matched in HTML form contains no quote; both have at
    least one character after the scheme.  An extracted URL is of one of
    the two kinds. *)
Theorem extracted_url_characters :
  (∀ body u, u ∈ Re.findall markdown_pattern body →
             all_chars markdown_url_char u = true ∧ (8 ≤ String.length u)%nat)
  ∧ (∀ body u, u ∈ Re.findall html_pattern body →
               all_chars html_url_char u = true ∧ (8 ≤ String.length u)%nat)
  ∧ (∀ body u, u ∈ extract_image_urls body →
               (all_chars markdown_url_char u = true
                ∨ all_chars html_url_char u = true)
               ∧ (8 ≤ String.length u)%nat).
Proof.
  split; [exact markdown_url_characters|]. split; [exact html_url_characters|].
  intros body u.
  rewrite extract_image_urls_first_seen, elem_of_first_seen, elem_of_app.
  intros [H|H].
  - apply markdown_url_characters in H as [? ?]. auto.
  - apply html_url_characters in H as [? ?]. auto.
Qed.

Lemma extracted_url_characters_witness :
  all_chars html_url_char "http://h/a b.png" = true
  ∧ (8 ≤ String.length "http://h/a b.png")%nat.
Proof.
  apply (proj1 (proj2 extracted_url_characters)
           "<img alt='x' src='http://h/a b.png'>" "http://h/a b.png").
  apply (list_elem_of_lookup_2 _ 0%nat). vm_compute. reflexivity.
Defined.

(** X5. A fetch that answers with an empty body is a failure of the item:
    once [Request(url)] has returned and [urlopen] has answered, nothing
    is written and the transform is not run; the response is closed and
    the entry is [failed] with the log [Empty response: ] followed by the
    URL. *)
Theorem empty_body_is_a_failure
        (lib : Lib) {W Resp : Type} (env : Env W Resp) (ins res : string)
        (i : Z) (u : string) (m : Manifest) (s : Sys W) ext resp w1 w2 :
  infer_extension lib u None = Return ext →
  request env u = Return tt →
  urlopen env u (world s) = (Return resp, w1) →
  response_read env resp w1 = (Return EmptyString, w2) →
  loop_body lib env ins res i u m s
  = (Return (append_item
               (mkItem i u Failed None None (Some ("Empty response: " +:+ u))) m),
     mkSys (response_close env resp w2) (trace s ++ [EvUrlopen u])).
Proof.
  intros Hext Hreq Hopen Hread.
  by rewrite loop_body_cases, Hext,
    (download_image_empty_body env u _ s resp w1 w2 Hreq Hopen Hread).
Qed.

Lemma empty_body_is_a_failure_witness :
  loop_body Reference.lib Scenarios.env_empty "out/inputs" "out/results" 1
    "https://example.com/a.jpg" (mkManifest "7" 1 0 []) (mkSys Reference.world1 [])
  = (Return (append_item
               (mkItem 1 "https://example.com/a.jpg" Failed None None
                  (Some ("Empty response: " +:+ "https://example.com/a.jpg")))
               (mkManifest "7" 1 0 [])),
     mkSys (response_close Scenarios.env_empty EmptyString Reference.world1)
       ([] ++ [EvUrlopen "https://example.com/a.jpg"])).
Proof.
  apply (empty_body_is_a_failure Reference.lib Scenarios.env_empty
           "out/inputs" "out/results" 1 "https://example.com/a.jpg"
           (mkManifest "7" 1 0 []) (mkSys Reference.world1 [])
           ".jpg" EmptyString Reference.world1 Reference.world1).
  - vm_compute. reflexivity.
  - vm_compute. reflexivity.
  - reflexivity.
  - reflexivity.
Defined.

(** X6. The message [run_main] returns has no blank at either end, and it
    is empty when the program printed nothing but blanks. *)
Theorem run_main_message_trimmed {W Resp : Type} (env : Env W Resp) :
  (∀ inp out (s : Sys W) success message s',
     run_main env inp out s = (Return (success, message), s') →
     trimmed message)
  ∧ (∀ inp out (s : Sys W) cp w1,
       subprocess_run env [sys_executable env; "main.py"; inp; out] (world s)
       = (Return cp, w1) →
       all_chars Str.isspace (stdout cp +:+ stderr cp) = true →
       ∃ success s', run_main env inp out s = (Return (success, EmptyString), s')).
Proof.
  assert (∀ a, Str.or_else a "" = a) as Hor by (by intros []).
  split.
  - intros inp out s success message s' H.
    apply run_main_spec in H as (cp & _ & _ & ->). apply strip_trimmed.
  - intros inp out s cp w1 Hcp Hblank.
    rewrite (run_main_returns env _ _ _ _ _ Hcp). do 2 eexists. do 2 f_equal.
    unfold transform_log, Str.strip. rewrite !Hor.
    by rewrite (lstrip_blank _ Hblank).
Qed.

Lemma run_main_message_trimmed_witness : trimmed "converted  ok".
Proof.
  apply (proj1 (run_main_message_trimmed Scenarios.env_chatty)
           "out/inputs/input_1.jpg" "out/results/output_1.png"
           (mkSys Scenarios.world_saved []) true "converted  ok"
           (run_main Scenarios.env_chatty "out/inputs/input_1.jpg"
              "out/results/output_1.png" (mkSys Scenarios.world_saved [])).2).
  vm_compute. reflexivity.
Defined.

(** X7. The calls of an iteration are settled by the results of its
    steps, in this order: the fetch is made exactly when extension
    inference and [Request(url)] both returned; the input file is written
    exactly when, besides, [urlopen] returned a response whose body was
    read and is not empty; the transform is run, on that input file and
    the output file of the item, exactly when that write returned too.
    So an iteration makes at most three calls, no call follows one that
    raised, and none is made when extension inference raises. *)
Theorem item_calls
        (lib : Lib) {W Resp : Type} (env : Env W Resp) (ins res : string)
        (i : Z) (u : string) (m : Manifest) (s : Sys W) r s' :
  loop_body lib env ins res i u m s = (r, s') →
  ∃ evs, trace s' = trace s ++ evs ∧
    match infer_extension lib u None with
    | Raise _ => evs = []
    | Return ext =>
        let input_path := input_path_of lib ins i ext in
        let output_path := output_path_of lib res i in
        match request env u with
        | Raise _ => evs = []
        | Return _ =>
            match urlopen env u (world s) with
            | (Raise _, _) => evs = [EvUrlopen u]
            | (Return response, w1) =>
                match response_read env response w1 with
                | (Raise _, _) => evs = [EvUrlopen u]
                | (Return EmptyString, _) => evs = [EvUrlopen u]
                | (Return data, w2) =>
                    match write_bytes env input_path data w2 with
                    | (Raise _, _) => evs = [EvUrlopen u; EvWriteBytes input_path]
                    | (Return _, _) =>
                        evs = [EvUrlopen u; EvWriteBytes input_path;
                               EvSubprocess [sys_executable env; "main.py";
                                             input_path; output_path]]
                    end
                end
            end
        end
    end.
Proof.
  intros H. apply loop_body_events in H.
  exists (calls_of lib env ins res i u (world s)). split; [done|].
  unfold calls_of.
  destruct (infer_extension lib u None) as [ext|e]; [|done].
  destruct (request env u) as [[]|e0]; [|done].
  destruct (urlopen env u (world s)) as [[resp|e] w1]; [|done].
  destruct (response_read env resp w1) as [[[|c data]|e] w2]; [done| |done].
  by destruct (write_bytes env _ (String c data) w2) as [[[]|e] w3].
Qed.

Lemma item_calls_witness :
  ∃ evs,
    trace (loop_body Reference.lib Reference.env1 "out/inputs" "out/results" 1
             "https://example.com/a.jpg" (mkManifest "7" 1 0 [])
             (mkSys Reference.world1 [])).2
    = [] ++ evs
    ∧ evs = [EvUrlopen "https://example.com/a.jpg";
             EvWriteBytes "out/inputs/input_1.jpg";
             EvSubprocess ["python3"; "main.py"; "out/inputs/input_1.jpg";
                           "out/results/output_1.png"]].
Proof.
  apply (item_calls Reference.lib Reference.env1 "out/inputs" "out/results" 1
           "https://example.com/a.jpg" (mkManifest "7" 1 0 [])
           (mkSys Reference.world1 [])
           (loop_body Reference.lib Reference.env1 "out/inputs" "out/results" 1
              "https://example.com/a.jpg" (mkManifest "7" 1 0 [])
              (mkSys Reference.world1 [])).1).
  apply surjective_pairing.
Defined.

(** X8. Every entry of a manifest handed to [write_text] has a log; its
    input and output paths are both absent, and then its status is
    [failed], or both present, and then they are [input_] and [output_]
    followed by the index of the entry, with the inferred extension and
    [.png], under the inputs and the results directory.  An entry with
    status [ok] has both. *)
Theorem written_item_fields
        (lib : Lib) {W Resp : Type} (env : Env W Resp)
        (args : Args) (w : W) r s' p (m : Manifest) (it : Item) :
  main lib env args (mkSys w []) = (r, s') →
  EvWriteText p m ∈ trace s' →
  it ∈ items m →
  item_fields lib (inputs_dir_of lib args) (results_dir_of lib args) it
  ∧ (item_status it = Ok → is_Some (input it) ∧ is_Some (output it)).
Proof.
  intros Hrun Hin Hit.
  destruct (main_written_loop lib env args w r s' p m Hrun Hin)
    as (body & w1 & urls & w3 & s2 & _ & _ & Hloop & _).
  apply for_each_item_fields in Hloop as (its & Hits & Hall). simpl in Hits.
  rewrite Hits in Hit. rewrite Forall_forall in Hall.
  pose proof (Hall it Hit) as Hf. split; [done|].
  destruct Hf as [_ [(_ & _ & Hst)|(ext & _ & -> & ->)]]; [congruence|eauto].
Qed.

Lemma written_item_fields_witness :
  item_fields Reference.lib (inputs_dir_of Reference.lib Reference.args1)
    (results_dir_of Reference.lib Reference.args1)
    (mkItem 3 "https://example.com/b.png" Ok (Some "out/inputs/input_3.png")
       (Some "out/results/output_3.png") (Some "done"))
  ∧ (item_status
       (mkItem 3 "https://example.com/b.png" Ok (Some "out/inputs/input_3.png")
          (Some "out/results/output_3.png") (Some "done")) = Ok →
     is_Some (Some "out/inputs/input_3.png") ∧ is_Some (Some "out/results/output_3.png")).
Proof.
  apply (written_item_fields Reference.lib Reference.env1 Reference.args1
           Reference.world1 Reference.run1.1 Reference.run1.2
           "out/manifest.json" Reference.manifest1).
  - apply surjective_pairing.
  - apply (list_elem_of_lookup_2 _ 11%nat). vm_compute. reflexivity.
  - apply (list_elem_of_lookup_2 _ 2%nat). reflexivity.
Defined.

(** X9. When [--urls-json] is supplied and [json.loads] raises, the run
    ends with that exception right after the issue body was read: no
    directory is made, no item is processed, no manifest is written. *)
Theorem bad_urls_json_is_fatal
        (lib : Lib) {W Resp : Type} (env : Env W Resp)
        (args : Args) (w : W) body w1 e :
  read_text env (body_path lib args) w = (Return body, w1) →
  urls_json args ≠ EmptyString →
  json_loads lib (urls_json args) = Raise e →
  main lib env args (mkSys w [])
  = (Raise e, mkSys w1 [EvReadText (body_path lib args);
                        EvJsonLoads (urls_json args)]).
Proof.
  intros Hread Hdoc Hj. rewrite main_eq, Hread. unfold resolve_urls.
  destruct (urls_json args) as [|c doc]; [done|].
  unfold bind, emit, modify. simpl. by rewrite Hj.
Qed.

Lemma bad_urls_json_is_fatal_witness :
  main Reference.lib Reference.env1 Scenarios.args_bad_json (mkSys Reference.world1 [])
  = (Raise (Exception "JSONDecodeError" "Expecting value: line 1 column 1 (char 0)"),
     mkSys Reference.world1
       [EvReadText (body_path Reference.lib Scenarios.args_bad_json);
        EvJsonLoads (urls_json Scenarios.args_bad_json)]).
Proof.
  apply (bad_urls_json_is_fatal Reference.lib Reference.env1 Scenarios.args_bad_json
           Reference.world1 Reference.body1 Reference.world1).
  - vm_compute. reflexivity.
  - discriminate.
  - vm_compute. reflexivity.
Defined.

(** X10. When making the inputs directory or the results directory
    raises, the run ends with that exception: nothing is fetched, no
    transform is run and no manifest is written. *)
Theorem mkdir_failure_is_fatal
        (lib : Lib) {W Resp : Type} (env : Env W Resp)
        (args : Args) (w : W) body w1 urls :
  read_text env (body_path lib args) w = (Return body, w1) →
  resolved lib args body urls →
  (∀ e w2,
     mkdir env (inputs_dir_of lib args) w1 = (Raise e, w2) →
     main lib env args (mkSys w [])
     = (Raise e, mkSys w2 [EvReadText (body_path lib args); resolve_event args body;
                           EvMkdir (inputs_dir_of lib args)]))
  ∧ (∀ w2 e w3,
       mkdir env (inputs_dir_of lib args) w1 = (Return tt, w2) →
       mkdir env (results_dir_of lib args) w2 = (Raise e, w3) →
       main lib env args (mkSys w [])
       = (Raise e, mkSys w3 [EvReadText (body_path lib args); resolve_event args body;
                             EvMkdir (inputs_dir_of lib args);
                             EvMkdir (results_dir_of lib args)])).
Proof.
  intros Hread Hres. split.
  - intros e w2 Hm1.
    rewrite main_eq, Hread, (resolve_urls_resolved lib args body urls _ Hres).
    simpl. by rewrite Hm1.
  - intros w2 e w3 Hm1 Hm2.
    rewrite main_eq, Hread, (resolve_urls_resolved lib args body urls _ Hres).
    simpl. by rewrite Hm1, Hm2.
Qed.

Lemma mkdir_failure_is_fatal_witness :
  main Reference.lib Scenarios.env_readonly Reference.args1 (mkSys Reference.world1 [])
  = (Raise (Exception "PermissionError" "[Errno 13] Permission denied: out/inputs"),
     mkSys Reference.world1
       [EvReadText (body_path Reference.lib Reference.args1);
        resolve_event Reference.args1 Reference.body1;
        EvMkdir (inputs_dir_of Reference.lib Reference.args1)]).
Proof.
  apply (proj1 (mkdir_failure_is_fatal Reference.lib Scenarios.env_readonly
                  Reference.args1 Reference.world1 Reference.body1 Reference.world1
                  (extract_image_urls Reference.body1) eq_refl eq_refl)).
  vm_compute. reflexivity.
Defined.

(** X11. The only value [main] returns is 0, and it returns it only after
    the manifest was handed to [write_text], as the last call of the
    run, and [write_text] returned. *)
Theorem main_returns_zero
        (lib : Lib) {W Resp : Type} (env : Env W Resp)
        (args : Args) (w : W) (n : Z) s' :
  main lib env args (mkSys w []) = (Return n, s') →
  n = 0
  ∧ ∃ m w4, last (trace s') = Some (EvWriteText (manifest_path lib args) m)
            ∧ write_text env (manifest_path lib args) m w4 = (Return tt, world s').
Proof.
  intros Hrun. apply main_shape in Hrun.
  inversion Hrun as [| | | |body w1 urls w2 w3 its evs w4 r5 w5 Hread Hres Hm1 Hm2
                            Hent Hev Hw Hr Hs].
  destruct r5 as [[]|e]; [|done]. injection Hr as <-. split; [done|].
  exists (manifest_of args urls its), w4. split; [|done].
  cbn [trace]. rewrite app_assoc. apply last_snoc.
Qed.

Lemma main_returns_zero_witness :
  0 = 0
  ∧ ∃ m w4,
      last (trace Reference.run1.2)
      = Some (EvWriteText (manifest_path Reference.lib Reference.args1) m)
      ∧ write_text Reference.env1 (manifest_path Reference.lib Reference.args1) m w4
        = (Return tt, world Reference.run1.2).
Proof.
  apply (main_returns_zero Reference.lib Reference.env1 Reference.args1
           Reference.world1 0 Reference.run1.2).
  vm_compute. reflexivity.
Defined.

(** X12. In the calls of a run, a fetch, a write of an input file or a
    run of the transform comes after both directories were made, and a
    manifest write is the last call and goes to [manifest.json] under the
    output directory: the manifest is written at most once and nothing
    follows it. *)
Theorem calls_are_ordered
        (lib : Lib) {W Resp : Type} (env : Env W Resp)
        (args : Args) (w : W) r s' :
  main lib env args (mkSys w []) = (r, s') →
  (∀ k ev, trace s' !! k = Some ev → item_event ev →
           trace s' !! 2%nat = Some (EvMkdir (inputs_dir_of lib args))
           ∧ trace s' !! 3%nat = Some (EvMkdir (results_dir_of lib args))
           ∧ (3 < k)%nat)
  ∧ (∀ k p m, trace s' !! k = Some (EvWriteText p m) →
              S k = length (trace s') ∧ p = manifest_path lib args).
Proof.
  intros Hrun. apply main_shape in Hrun.
  assert (∀ body, ¬ item_event (resolve_event args body)) as Hni.
  { intros body. unfold resolve_event. destruct (urls_json args); simpl; tauto. }
  pose proof (resolve_event_not_write args) as Hne.
  destruct Hrun as [e w1 Hread|body w1 e Hread Hdoc Hj|body w1 urls e w2 Hread Hres Hm1
                   |body w1 urls w2 e w3 Hread Hres Hm1 Hm2
                   |body w1 urls w2 w3 its evs w4 r w5 Hread Hres Hm1 Hm2 Hent Hev Hw];
    cbn [trace].
  1-4: split; [intros k ev Hk Hi|intros k p m Hk];
       repeat (destruct k as [|k]; simpl in Hk;
               [injection Hk as <- || injection Hk as Hk;
                first [done|by apply Hni in Hi|by apply Hne in Hk]|]);
       done.
  split.
  - intros k ev Hk Hi.
    do 4 (destruct k as [|k]; simpl in Hk;
          [injection Hk as <-; first [done|by apply Hni in Hi]|]).
    repeat split; lia.
  - intros k p m Hk.
    do 4 (destruct k as [|k]; simpl in Hk;
          [injection Hk as Hk; first [done|by apply Hne in Hk]|]).
    apply lookup_app_Some in Hk as [Hk|[Hlen Hk]].
    + apply list_elem_of_lookup_2 in Hk. by apply item_event_not_write in Hk.
    + destruct (k - length evs)%nat as [|j] eqn:Hj; simpl in Hk; [|done].
      injection Hk as -> ->. split; [|done].
      simpl. rewrite length_app. simpl. lia.
Qed.

Lemma calls_are_ordered_witness :
  (∀ k ev, trace Reference.run1.2 !! k = Some ev → item_event ev →
           trace Reference.run1.2 !! 2%nat
           = Some (EvMkdir (inputs_dir_of Reference.lib Reference.args1))
           ∧ trace Reference.run1.2 !! 3%nat
             = Some (EvMkdir (results_dir_of Reference.lib Reference.args1))
           ∧ (3 < k)%nat)
  ∧ (∀ k p m, trace Reference.run1.2 !! k = Some (EvWriteText p m) →
              S k = length (trace Reference.run1.2)
              ∧ p = manifest_path Reference.lib Reference.args1).
Proof.
  apply (calls_are_ordered Reference.lib Reference.env1 Reference.args1
           Reference.world1 Reference.run1.1 Reference.run1.2).
  apply surjective_pairing.
Defined.

(** X13. With no reference to process, the run makes the two directories
    and hands [write_text] a manifest with no item and both counters at
    0; it fetches nothing and runs no transform. *)
Theorem empty_batch
        (lib : Lib) {W Resp : Type} (env : Env W Resp)
        (args : Args) (w : W) body w1 w2 w3 r w4 :
  read_text env (body_path lib args) w = (Return body, w1) →
  resolved lib args body [] →
  mkdir env (inputs_dir_of lib args) w1 = (Return tt, w2) →
  mkdir env (results_dir_of lib args) w2 = (Return tt, w3) →
  write_text env (manifest_path lib args)
    (mkManifest (arg_issue_number args) 0 0 []) w3 = (r, w4) →
  main lib env args (mkSys w [])
  = (match r with Return _ => Return 0 | Raise e => Raise e end,
     mkSys w4 [EvReadText (body_path lib args); resolve_event args body;
               EvMkdir (inputs_dir_of lib args); EvMkdir (results_dir_of lib args);
               EvWriteText (manifest_path lib args)
                 (mkManifest (arg_issue_number args) 0 0 [])]).
Proof.
  intros Hread Hres Hm1 Hm2 Hw.
  rewrite main_eq, Hread, (resolve_urls_resolved lib args body [] _ Hres).
  simpl. rewrite Hm1, Hm2. unfold ret. simpl.
  change (Z.of_nat 0) with 0. by rewrite Hw.
Qed.

Lemma empty_batch_witness :
  Scenarios.run_plain
  = (Return 0,
     mkSys (Reference.mkWorld (Reference.files Scenarios.world_plain)
              ["out/inputs"; "out/results"]
              (Some ("out/manifest.json", mkManifest "11" 0 0 [])))
       [EvReadText (body_path Reference.lib Scenarios.args_plain);
        resolve_event Scenarios.args_plain "no image here";
        EvMkdir (inputs_dir_of Reference.lib Scenarios.args_plain);
        EvMkdir (results_dir_of Reference.lib Scenarios.args_plain);
        EvWriteText (manifest_path Reference.lib Scenarios.args_plain)
          (mkManifest (arg_issue_number Scenarios.args_plain) 0 0 [])]).
Proof.
  apply (empty_batch Reference.lib Reference.env1 Scenarios.args_plain
           Scenarios.world_plain "no image here" Scenarios.world_plain
           (Reference.mkWorld (Reference.files Scenarios.world_plain)
              ["out/inputs"] None)
           (Reference.mkWorld (Reference.files Scenarios.world_plain)
              ["out/inputs"; "out/results"] None)
           (Return tt)).
  - vm_compute. reflexivity.
  - vm_compute. reflexivity.
  - reflexivity.
  - reflexivity.
  - reflexivity.
Defined.

(** X14. The URLs a run fetches, in the order it fetches them, are the
    references for which extension inference and [Request(url)] both
    return, each once: no reference is fetched twice, none of these is
    skipped, none is fetched out of turn, and a reference for which
    either of the two raises is not fetched at all. *)
Theorem fetches_follow_references
        (lib : Lib) {W Resp : Type} (env : Env W Resp)
        (args : Args) (w : W) r s' p (m : Manifest) :
  main lib env args (mkSys w []) = (r, s') →
  EvWriteText p m ∈ trace s' →
  ∃ body w1 urls,
    read_text env (body_path lib args) w = (Return body, w1)
    ∧ resolved lib args body urls
    ∧ fetched (trace s')
      = filter (λ u, infers lib u = true ∧ requests env u = true) urls.
Proof.
  intros Hrun Hin.
  destruct (main_written_loop lib env args w r s' p m Hrun Hin)
    as (body & w1 & urls & w3 & s2 & Hread & Hres & Hloop & Htr & _).
  exists body, w1, urls. split; [done|]. split; [done|].
  apply for_each_fetched in Hloop as (evs & Hevs & Hf). cbn [trace] in Hevs.
  rewrite Htr, Hevs, !fetched_app, Hf.
  change [EvReadText (body_path lib args); resolve_event args body;
          EvMkdir (inputs_dir_of lib args); EvMkdir (results_dir_of lib args)]
    with ([EvReadText (body_path lib args)] ++ [resolve_event args body]
          ++ [EvMkdir (inputs_dir_of lib args); EvMkdir (results_dir_of lib args)]).
  rewrite !fetched_app, fetched_resolve_event. simpl. by rewrite app_nil_r.
Qed.

Lemma fetches_follow_references_witness :
  ∃ body w1 urls,
    read_text Reference.env1 (body_path Reference.lib Scenarios.args_mixed)
      Reference.world1 = (Return body, w1)
    ∧ resolved Reference.lib Scenarios.args_mixed body urls
    ∧ fetched (trace Scenarios.run_mixed.2)
      = filter (λ u, infers Reference.lib u = true
                     ∧ requests Reference.env1 u = true) urls.
Proof.
  apply (fetches_follow_references Reference.lib Reference.env1 Scenarios.args_mixed
           Reference.world1 Scenarios.run_mixed.1 Scenarios.run_mixed.2
           "out/manifest.json" Scenarios.manifest_mixed).
  - apply surjective_pairing.
  - apply (list_elem_of_lookup_2 _ 7%nat). vm_compute. reflexivity.
Defined.

(** ** File names *)

Lemma append_cancel_l (p a b : string) : p +:+ a = p +:+ b → a = b.
Proof.
  induction p as [|x p IH]; [done|].
  change (String x (p +:+ a) = String x (p +:+ b) → a = b).
  intros [= H]. by apply IH.
Qed.

Lemma append_cancel_r (a b s : string) : a +:+ s = b +:+ s → a = b.
Proof.
  revert b. induction a as [|x a IH]; intros [|y b] H.
  - done.
  - apply (f_equal String.length) in H. rewrite !append_length in H. simpl in H. lia.
  - apply (f_equal String.length) in H. rewrite !append_length in H. simpl in H. lia.
  - change (String x (a +:+ s) = String y (b +:+ s)) in H.
    injection H as -> H. f_equal. by apply IH.
Qed.

Lemma of_Z_inj (i j : Z) : Str.of_Z i = Str.of_Z j → i = j.
Proof.
  assert (∀ z, DecimalString.NilZero.int_of_string (Str.of_Z z) = Some (Z.to_int z))
    as Hback.
  { intros z. unfold Str.of_Z. apply DecimalString.NilZero.isi.
    - destruct z; simpl; [done| |done]. intros [= H].
      by apply DecimalPos.Unsigned.to_uint_nonnil in H.
    - destruct z; simpl; [done|done|]. intros [= H].
      by apply DecimalPos.Unsigned.to_uint_nonnil in H. }
  intros H. apply DecimalZ.to_int_inj.
  pose proof (Hback i) as Hi. rewrite H, Hback in Hi. by injection Hi.
Qed.

Lemma string_of_uint_no_slash (d : Decimal.uint) :
  all_chars (λ c, negb (Ascii.eqb c "/")) (NilEmpty.string_of_uint d) = true.
Proof. induction d; simpl; by rewrite ?IHd. Qed.

Lemma of_Z_no_slash (i : Z) :
  all_chars (λ c, negb (Ascii.eqb c "/")) (Str.of_Z i) = true.
Proof.
  unfold Str.of_Z, NilZero.string_of_int, NilZero.string_of_uint.
  destruct (Z.to_int i) as [[]|[]]; simpl; by rewrite ?string_of_uint_no_slash.
Qed.

Lemma output_name_component (i : Z) : component (output_name i).
Proof.
  change (output_name i) with (String "o" ("utput_" +:+ Str.of_Z i +:+ ".png")).
  split; [done|]. split.
  - by change ("utput_" +:+ Str.of_Z i +:+ ".png")
      with (String "u" ("tput_" +:+ Str.of_Z i +:+ ".png")).
  - change (String "o" ("utput_" +:+ Str.of_Z i +:+ ".png"))
      with ("output_" +:+ Str.of_Z i +:+ ".png").
    by rewrite !all_chars_append, of_Z_no_slash.
Qed.

(** X15. The output file name of an item is a single path component,
    two items with different indices have different output file names,
    and different output paths whenever joining single components to the
    results directory keeps different ones apart. *)
Theorem output_names_are_distinct :
  (∀ i, component (output_name i))
  ∧ (∀ i j, i ≠ j → output_name i ≠ output_name j)
  ∧ (∀ lib res i j,
       (∀ a b, component a → component b →
               joinpath lib res a = joinpath lib res b → a = b) →
       i ≠ j →
       output_path_of lib res i ≠ output_path_of lib res j).
Proof.
  assert (∀ i j, output_name i = output_name j → i = j) as Hname.
  { intros i j H. unfold output_name in H.
    apply append_cancel_l, append_cancel_r in H. by apply of_Z_inj. }
  split; [exact output_name_component|]. split.
  - intros i j Hij H. by apply Hij, Hname.
  - intros lib res i j Hjoin Hij H.
    by apply Hij, Hname, Hjoin; [apply output_name_component..|].
Qed.

Lemma output_names_are_distinct_witness :
  output_name 1 ≠ output_name 2
  ∧ output_path_of Reference.lib "out/results" 1
    ≠ output_path_of Reference.lib "out/results" 2.
Proof.
  split.
  - apply (proj1 (proj2 output_names_are_distinct) 1 2). lia.
  - apply (proj2 (proj2 output_names_are_distinct) Reference.lib "out/results" 1 2).
    + intros a b _ _ H. by apply (append_cancel_l ("out/results" +:+ "/")).
    + lia.
Defined.

(** X16. When [download_image] returns, the body it read was not empty,
    exactly that body was written to the save path, and the response was
    closed after the write. *)
Theorem download_image_saves_body
        {W Resp : Type} (env : Env W Resp) (u p : string) (s s' : Sys W) :
  download_image env u p s = (Return tt, s') →
  ∃ resp w1 data w2 w3,
    urlopen env u (world s) = (Return resp, w1)
    ∧ response_read env resp w1 = (Return data, w2)
    ∧ data ≠ EmptyString
    ∧ write_bytes env p data w2 = (Return tt, w3)
    ∧ world s' = response_close env resp w3
    ∧ trace s' = trace s ++ [EvUrlopen u; EvWriteBytes p].
Proof.
  unfold download_image, bind, emit, modify, sys_call, finally, raise, of_result.
  simpl. destruct (request env u) as [[]|e0]; simpl; [|done].
  destruct (urlopen env u (world s)) as [[resp|e] w1] eqn:Hopen; simpl; [|done].
  destruct (response_read env resp w1) as [[[|c data]|e] w2] eqn:Hread; simpl;
    [done| |done].
  destruct (write_bytes env p (String c data) w2) as [[[]|e] w3] eqn:Hwrite; simpl;
    [|done].
  intros [= <-]. exists resp, w1, (String c data), w2, w3.
  simpl. by rewrite <- app_assoc.
Qed.

Lemma download_image_saves_body_witness :
  ∃ resp w1 data w2 w3,
    urlopen Reference.env1 "https://example.com/a.jpg" (world (mkSys Reference.world1 []))
    = (Return resp, w1)
    ∧ response_read Reference.env1 resp w1 = (Return data, w2)
    ∧ data ≠ EmptyString
    ∧ write_bytes Reference.env1 "out/inputs/input_1.jpg" data w2 = (Return tt, w3)
    ∧ world (mkSys Scenarios.world_saved
               [EvUrlopen "https://example.com/a.jpg";
                EvWriteBytes "out/inputs/input_1.jpg"])
      = response_close Reference.env1 resp w3
    ∧ trace (mkSys Scenarios.world_saved
               [EvUrlopen "https://example.com/a.jpg";
                EvWriteBytes "out/inputs/input_1.jpg"])
      = trace (mkSys Reference.world1 [])
        ++ [EvUrlopen "https://example.com/a.jpg";
            EvWriteBytes "out/inputs/input_1.jpg"].
Proof.
  apply (download_image_saves_body Reference.env1 "https://example.com/a.jpg"
           "out/inputs/input_1.jpg" (mkSys Reference.world1 [])).
  reflexivity.
Defined.

(** X17. When the transform exits with a status other than 0, the entry
    is [failed] whether or not the output file exists; it keeps the input
    path, the output path and the captured output as log, and the counter
    of processed images is left alone. *)
Theorem nonzero_exit_is_failed
        (lib : Lib) {W Resp : Type} (env : Env W Resp) (ins res : string)
        (i : Z) (u : string) (m : Manifest) (s : Sys W) ext s1 cp w2 :
  infer_extension lib u None = Return ext →
  download_image env u (input_path_of lib ins i ext) s = (Return tt, s1) →
  subprocess_run env
    [sys_executable env; "main.py"; input_path_of lib ins i ext;
     output_path_of lib res i] (world s1) = (Return cp, w2) →
  returncode cp ≠ 0 →
  (loop_body lib env ins res i u m s).1
  = Return (append_item
              (mkItem i u Failed (Some (input_path_of lib ins i ext))
                 (Some (output_path_of lib res i)) (Some (transform_log cp)))
              m).
Proof.
  intros Hext Hd Hcp Hrc.
  rewrite loop_body_cases, Hext, Hd, (run_main_returns env _ _ _ _ _ Hcp).
  apply Z.eqb_neq in Hrc. by rewrite Hrc.
Qed.

Lemma nonzero_exit_is_failed_witness :
  (loop_body Reference.lib Scenarios.env_broken "out/inputs" "out/results" 1
     "https://example.com/a.jpg" (mkManifest "7" 1 0 []) (mkSys Reference.world1 [])).1
  = Return (append_item
              (mkItem 1 "https://example.com/a.jpg" Failed
                 (Some (input_path_of Reference.lib "out/inputs" 1 ".jpg"))
                 (Some (output_path_of Reference.lib "out/results" 1))
                 (Some (transform_log (mkCompleted 3 "" " cannot decode "))))
              (mkManifest "7" 1 0 [])).
Proof.
  apply (nonzero_exit_is_failed Reference.lib Scenarios.env_broken
           "out/inputs" "out/results" 1 "https://example.com/a.jpg"
           (mkManifest "7" 1 0 []) (mkSys Reference.world1 []) ".jpg"
           (mkSys Scenarios.world_saved
              [EvUrlopen "https://example.com/a.jpg";
               EvWriteBytes "out/inputs/input_1.jpg"])
           (mkCompleted 3 "" " cannot decode ")
           (Reference.put_file "out/results/output_1.png" "PARTIAL"
              Scenarios.world_saved)).
  - vm_compute. reflexivity.
  - reflexivity.
  - vm_compute. reflexivity.
  - discriminate.
Defined.

(** X18. Called without a content-type, as the loop calls it,
    [infer_extension] returns for every URL that [urlparse] accepts: the
    suffix of the URL path in lower case when that is one of
    [IMAGE_EXTS], and [.png] otherwise.  For a URL that [urlparse]
    rejects it raises the exception of [urlparse].  The table of
    [mimetypes] has no part in the outcome. *)
Theorem infer_extension_without_content_type (lib : Lib) (u : string) :
  (∀ p, urlparse_path lib u = Return p →
        (Str.lower (path_suffix lib p) ∈ IMAGE_EXTS →
         infer_extension lib u None = Return (Str.lower (path_suffix lib p)))
        ∧ (Str.lower (path_suffix lib p) ∉ IMAGE_EXTS →
           infer_extension lib u None = Return ".png"))
  ∧ (∀ e, urlparse_path lib u = Raise e →
          infer_extension lib u None = Raise e)
  ∧ (∀ guess',
       infer_extension
         (mkLib (urlparse_path lib) (path_suffix lib) guess' (mk_path lib)
            (joinpath lib) (json_loads lib)) u None
       = infer_extension lib u None).
Proof.
  unfold infer_extension. simpl. split; [|split; [|done]].
  - intros p ->. split; intros Hs.
    + by rewrite decide_True.
    + by rewrite decide_False.
  - by intros e ->.
Qed.

Lemma infer_extension_without_content_type_witness :
  infer_extension Reference.lib "https://example.com/x/a.JPG?size=2" None
  = Return ".jpg"
  ∧ infer_extension Reference.lib "https://example.com/download" None
    = Return ".png"
  ∧ infer_extension Reference.lib "http://[::1/a.jpg" None
    = Raise (Exception "ValueError" "Invalid IPv6 URL").
Proof.
  split; [|split].
  - apply (proj1 (proj1 (infer_extension_without_content_type Reference.lib
                           "https://example.com/x/a.JPG?size=2")
                    "/x/a.JPG" eq_refl)).
    apply (proj1 (bool_decide_eq_true _)). vm_compute. reflexivity.
  - apply (proj2 (proj1 (infer_extension_without_content_type Reference.lib
                           "https://example.com/download")
                    "/download" eq_refl)).
    apply (proj1 (bool_decide_eq_false _)). vm_compute. reflexivity.
  - apply (proj1 (proj2 (infer_extension_without_content_type Reference.lib
                           "http://[::1/a.jpg"))).
    vm_compute. reflexivity.
Defined.
